(** * Omni voice booking assistant: pricing, booking store, playback
      scheduling, capture, tool dispatch and the connection state machine.

    Shallow embedding of [App.tsx] (both application variants that the
    repository carries) and of the host functions it calls.

    Conventions.
    - JavaScript numbers that are integers in every run (time values in
      milliseconds, night counts, rates, audio positions counted in sample
      frames) are [Z].  [NaN] and [undefined] are [None].
    - JavaScript objects used as records with optional fields are
      [gmap string JsVal]; object spread [{...a, ...b}] is the union in
      which [b] wins.
    - Strings are Rocq [string]s; [toLowerCase] is modelled on the ASCII
      letters, which is where the rate-table keys live.
    - The floats of the level meter are rationals ([Qc]); rounding is not
      modelled.
    - [FunctionCall] and [LiveServerMessage] are the messages that go
      through a handler without a [TypeError]: the argument object of a
      call is present (possibly empty), as the declared tool schemas
      make it, and its fields may be missing.  [WireCall] and
      [WireMessage] are the messages as the SDK's types allow them, with
      [args], [parts] and [functionCalls] optional; the [_wire] handlers
      say where the source throws on them.
    - The integer quotient [Math_ceil_div] is the value of the source's
      double arithmetic for time values at most [2 ^ 53] ms apart.
    - Host functions that are not part of the repository sources (the
      [Date] parser, [Math.sqrt], random and clock readings, and the audio
      utilities [decodeAudioData] and [createPcmBlob]) are fields of the
      [Host] class, so every general statement holds for all of them.
    - A turn of the event loop is one handler followed by the
      continuations it queued behind the session promise, which has
      resolved by the time any of these handlers runs. *)

From Stdlib Require Import ZArith Lia Ascii String QArith Qcanon.
From stdpp Require Import base option strings list gmap pretty.

Local Open Scope string_scope.
Local Open Scope list_scope.
Local Open Scope Z_scope.

(** ** JavaScript values and host functions *)

Inductive JsVal : Type :=
| JStr (s : string)
| JNum (n : Z)
| JBool (b : bool)
| JNull.

#[global] Instance JsVal_eq_dec : EqDecision JsVal.
Proof. solve_decision. Defined.

(** An object with optional fields; a missing key reads as [undefined]. *)
Abbreviation JsObj := (gmap string JsVal).

(** [{...a, ...b}]: the fields of [b] override those of [a]. *)
Definition spread (a b : JsObj) : JsObj := b ∪ a.

(** [x || d] on a number that is never [NaN]. *)
Definition num_or (x d : Z) : Z := if x =? 0 then d else x.

(** [x || d] on a string-or-undefined. *)
Definition str_or (x : option string) (d : string) : string :=
  match x with
  | Some "" | None => d
  | Some s => s
  end.

(** [Math.ceil (a / b)] for an integer [a] and a positive integer [b].
    The source subtracts and divides doubles.  Time values are integers
    of magnitude at most 8.64e15, so they are doubles; their difference
    [a] is a double as long as it is at most [2 ^ 53].  In that range
    the quotient by the milliseconds of a day is below [2 ^ 27], where
    doubles are [2 ^ -26] apart: the quotient is rounded by at most
    [2 ^ -27], less than the [1 / 86400000] by which a fraction stays
    away from the integer below it, so [Math.ceil] of the rounded
    quotient is the exact ceiling.  Beyond [2 ^ 53] the difference is
    itself rounded and the two may differ by one. *)
Definition Math_ceil_div (a b : Z) : Z :=
  if a mod b =? 0 then a / b else a / b + 1.

Definition toLowerAscii (c : ascii) : ascii :=
  let n := Ascii.N_of_ascii c in
  if ((65 <=? n) && (n <=? 90))%N then Ascii.ascii_of_N (n + 32) else c.

Fixpoint toLowerCase (s : string) : string :=
  match s with
  | EmptyString => EmptyString
  | String c s' => String (toLowerAscii c) (toLowerCase s')
  end.

(** [s.startsWith(r)] *)
Fixpoint startsWith (s r : string) {struct r} : bool :=
  match r, s with
  | EmptyString, _ => true
  | String _ _, EmptyString => false
  | String a r', String b s' => if Ascii.eqb a b then startsWith s' r' else false
  end.

(** [s.includes(r)] *)
Fixpoint includes (s r : string) : bool :=
  startsWith s r ||
  match s with
  | EmptyString => false
  | String _ s' => includes s' r
  end.

(** A decoded chunk: its sample frames.  Positions and lengths on the
    output device are counted in sample frames, so that the
    [duration] of a buffer and [currentTime] are integers. *)
Record AudioBuffer : Type := mkAudioBuffer { channelData : list Z }.

Definition duration (b : AudioBuffer) : Z := Z.of_nat (length (channelData b)).

(** The random and clock readings one tool call may consume. *)
Record Entropy : Type := mkEntropy {
  (** [Math.floor(Math.random() * 10000)] *)
  random_10000 : Z;
  (** [Math.random().toString(36).substring(7).toUpperCase()] *)
  random_base36 : string;
  (** [crypto.randomUUID()] *)
  randomUUID : string;
  (** [new Date().toISOString()] *)
  toISOString : string;
}.

(** The host: what the browser and the audio utility module provide. *)
Class Host : Type := {
  (** [new Date(s).getTime()]; [None] is [NaN] (an invalid date). *)
  Date_parse : string → option Z;
  (** [decodeAudioData(base64ToArrayBuffer(data), ctx, ...)] of the audio
      utilities, with the [await] resolved within the same turn. *)
  decodeAudioData : string → AudioBuffer;
  (** [createPcmBlob] of the audio utilities. *)
  createPcmBlob : list Qc → string;
  (** [Math.sqrt] on the rationals standing for the floats. *)
  Math_sqrt : Qc → Qc;
  (** The [n]-th batch of random and clock readings. *)
  entropy : nat → Entropy;
}.

(** [new Date(v).getTime()] for an argument field that may be missing or
    carry a non-string value. *)
Definition Date_getTime `{Host} (v : option JsVal) : option Z :=
  match v with
  | Some (JStr s) => Date_parse s
  | Some (JNum n) => if (Z.abs n <=? 8640000000000000) then Some n else None
  | Some (JBool b) => Some (if b then 1 else 0)
  | Some JNull => Some 0
  | None => None
  end.

(** *** A concrete date parser: the date-only form [YYYY-MM-DD] of the
    ECMAScript date-time string format, read as UTC midnight.  What an
    engine does with other strings is left to the engine, which is why the
    development is parametric in [Host]. *)

Definition digit_of (c : ascii) : option Z :=
  let n := Ascii.N_of_ascii c in
  if ((48 <=? n) && (n <=? 57))%N then Some (Z.of_N n - 48) else None.

Fixpoint digits_of (s : string) (acc : Z) : option Z :=
  match s with
  | EmptyString => Some acc
  | String c s' =>
      match digit_of c with
      | Some d => digits_of s' (10 * acc + d)
      | None => None
      end
  end.

Definition is_leap (y : Z) : bool :=
  ((y mod 4 =? 0) && negb (y mod 100 =? 0)) || (y mod 400 =? 0).

Definition days_in_month (y m : Z) : Z :=
  if m =? 2 then (if is_leap y then 29 else 28)
  else if (m =? 4) || (m =? 6) || (m =? 9) || (m =? 11) then 30
  else 31.

(** Days from 1970-01-01 to the civil date [y-m-d] (proleptic Gregorian). *)
Definition days_from_civil (y m d : Z) : Z :=
  let y' := if m <=? 2 then y - 1 else y in
  let era := y' / 400 in
  let yoe := y' - era * 400 in
  let mp := (m + 9) mod 12 in
  let doy := (153 * mp + 2) / 5 + d - 1 in
  let doe := yoe * 365 + yoe / 4 - yoe / 100 + doy in
  era * 146097 + doe - 719468.

Definition ms_per_day : Z := 1000 * 60 * 60 * 24.

Definition Date_parse_iso (s : string) : option Z :=
  if negb (String.length s =? 10)%nat then None else
  match String.get 4 s, String.get 7 s with
  | Some "-"%char, Some "-"%char =>
      match digits_of (String.substring 0 4 s) 0,
            digits_of (String.substring 5 2 s) 0,
            digits_of (String.substring 8 2 s) 0 with
      | Some y, Some m, Some d =>
          if (1 <=? m) && (m <=? 12) && (1 <=? d) && (d <=? days_in_month y m)
          then Some (days_from_civil y m d * ms_per_day)
          else None
      | _, _, _ => None
      end
  | _, _ => None
  end.

(** A host for running examples: ISO dates, one sample frame per
    character of payload, fixed random readings. *)
Definition iso_host : Host := {|
  Date_parse := Date_parse_iso;
  decodeAudioData := λ data, mkAudioBuffer (replicate (String.length data) 0);
  createPcmBlob := λ _, "pcm";
  Math_sqrt := λ x, x;
  entropy := λ n, mkEntropy (Z.of_nat n + 42) "K3X9QA" "uuid" "2024-01-01T00:00:00.000Z";
|}.

(** ** Pricing *)

Module Pricing.

(** [ROOM_RATES]: an object literal; [Object.keys] lists its keys in
    the order they are written. *)
Definition ROOM_RATES : list (string * Z) :=
  [ ("standard", 150); ("double", 180); ("deluxe", 250);
    ("family", 300); ("suite", 450); ("presidential", 1200) ].

Definition Object_keys (o : list (string * Z)) : list string := o.*1.

(** [o[key]] *)
Fixpoint prop_get (o : list (string * Z)) (key : string) : option Z :=
  match o with
  | [] => None
  | (k, v) :: o' => if String.eqb k key then Some v else prop_get o' key
  end.

Record Financials : Type := mkFinancials {
  nights : Z;
  rate : Z;
  total : Z;
}.

(** The fuzzy match of the room type against the rate table. *)
Definition rate_key (roomType : string) : string :=
  str_or (find (λ r, includes (toLowerCase roomType) r)
               (Object_keys ROOM_RATES)) "standard".

(** [calculateStayCost].  The tool handlers pass fields of an untyped
    argument object, so each argument may be missing or not a string.
    [None] is the [null] result: returned when a date is invalid, and
    from the [catch] when [roomType.toLowerCase] is not callable. *)
Definition calculateStayCost `{Host}
    (checkIn checkOut roomType : option JsVal) : option Financials :=
  match Date_getTime checkIn, Date_getTime checkOut with
  | Some start, Some end_ =>
      let diffTime := Z.abs (end_ - start) in
      let nights := Math_ceil_div diffTime ms_per_day in
      match roomType with
      | Some (JStr roomType) =>
          let key := rate_key roomType in
          match prop_get ROOM_RATES key with
          | Some rate =>
              Some {| nights := num_or nights 1;
                      rate := rate;
                      total := num_or nights 1 * rate |}
          | None => None
          end
      | _ => None
      end
  | _, _ => None
  end.

(** The call with three strings, as the signature declares it. *)
Definition price `{Host} (checkIn checkOut roomType : string) : option Financials :=
  calculateStayCost (Some (JStr checkIn)) (Some (JStr checkOut)) (Some (JStr roomType)).

End Pricing.

(** ** The booking store *)

Module MockDatabase.

(** [localStorage.getItem('omni_bookings')]: [None] while the key has
    never been written.  The stored text is the JSON of a list of
    bookings; [JSON.parse] of [JSON.stringify] is the identity on the
    values of [JsVal]. *)
Abbreviation Storage := (option (list JsObj)).

(** [JSON.parse(localStorage.getItem('omni_bookings') || '[]')] *)
Definition load (ls : Storage) : list JsObj := default [] ls.

Definition saveBooking (uuid created_at : string) (booking : JsObj)
    (ls : Storage) : JsObj * Storage :=
  let existing := load ls in
  let newBooking :=
    spread booking
      {[ "id" := JStr uuid; "created_at" := JStr created_at;
         "status" := JStr "confirmed" ]} in
  (newBooking, Some (newBooking :: existing)).

Definition getBookings (userEmail : string) (ls : Storage) : list JsObj :=
  filter (λ b, b !! "email" = Some (JStr userEmail)) (load ls).

(** The [map] callback of [cancelBooking] with the captured [found]
    flag threaded through; [===] on a field and the requested code. *)
Fixpoint cancel_map (confirmationCode : option JsVal) (all : list JsObj)
    (found : bool) : list JsObj * bool :=
  match all with
  | [] => ([], found)
  | b :: rest =>
      if decide (b !! "confirmation_code" = confirmationCode) then
        let '(updated, found') := cancel_map confirmationCode rest true in
        (spread b {[ "status" := JStr "cancelled" ]} :: updated, found')
      else
        let '(updated, found') := cancel_map confirmationCode rest found in
        (b :: updated, found')
  end.

Definition cancelBooking (confirmationCode : option JsVal) (ls : Storage)
    : bool * Storage :=
  let all := load ls in
  let '(updated, found) := cancel_map confirmationCode all false in
  (found, Some updated).

End MockDatabase.

(** ** Application state

    Both application variants keep the same kinds of state: React state
    cells, refs, the browser's [localStorage], and what has been handed to
    the streaming session.  Presentation state that no modelled code path
    reads (toasts, the transcript log, the e-mail badge, the refresh
    counter, drawers) is left out. *)

Inductive ConnectionState : Type := DISCONNECTED | CONNECTING | CONNECTED | ERROR.

#[global] Instance ConnectionState_eq_dec : EqDecision ConnectionState.
Proof. solve_decision. Defined.

Record User : Type := mkUser { user_id : string; user_name : string; user_email : string }.

Record FunctionCall : Type := mkCall {
  call_id : string;
  call_name : string;
  call_args : JsObj;
}.

(** The [result] of a tool: an object, or the array [list_bookings]
    answers with. *)
Inductive Payload : Type :=
| PObj (o : JsObj)
| PArr (l : list JsObj).

Record FunctionResponse : Type := mkResponse {
  resp_id : string;
  resp_name : string;
  resp_result : Payload;
}.

Record LiveServerMessage : Type := mkMessage {
  (** [serverContent?.modelTurn?.parts[0]?.inlineData?.data] *)
  inlineData : option string;
  (** [serverContent?.interrupted] *)
  interrupted : bool;
  (** [toolCall.functionCalls] when [toolCall] is present *)
  toolCall : option (list FunctionCall);
}.

(** *** Messages as the SDK delivers them

    In the SDK's types [args] of a function call, [parts] of a model
    turn and [functionCalls] of a tool call are optional; the handlers
    read all three without a guard. *)
Record WireCall : Type := mkWireCall {
  wire_id : string;
  wire_name : string;
  (** [call.args] *)
  wire_args : option JsObj;
}.

(** [serverContent?.modelTurn]. *)
Inductive ModelTurn : Type :=
| NoModelTurn                    (** no server content, or no model turn in it *)
| NoParts                        (** a model turn without [parts] *)
| Parts (data : option string).  (** [parts[0]?.inlineData?.data] *)

(** [toolCall]. *)
Inductive ToolCallField : Type :=
| NoToolCall
| NoFunctionCalls                (** a tool call without [functionCalls] *)
| FunctionCalls (functionCalls : list WireCall).

Record WireMessage : Type := mkWireMessage {
  wire_modelTurn : ModelTurn;
  (** [serverContent?.interrupted] *)
  wire_interrupted : bool;
  wire_toolCall : ToolCallField;
}.

(** [modelTurn?.parts[0]?.inlineData?.data] where it does not throw. *)
Definition wire_inlineData (message : WireMessage) : option string :=
  match wire_modelTurn message with
  | Parts data => data
  | _ => None
  end.

(** An [AudioBufferSourceNode] that has been started. *)
Record SourceNode : Type := mkNode {
  node_buffer : AudioBuffer;
  node_start : Z;
  node_stopped : bool;
}.

Definition node_end (n : SourceNode) : Z := node_start n + duration (node_buffer n).

Definition node_stop (n : SourceNode) : SourceNode :=
  {| node_buffer := node_buffer n; node_start := node_start n; node_stopped := true |}.

(** Output side: [outputAudioContextRef], [nextStartTimeRef], every source
    node created so far, and the set of scheduled ones (by index). *)
Record Playback : Type := mkPlayback {
  outputAudioContext : bool;
  nextStartTime : Z;
  nodes : list SourceNode;
  scheduledSources : gset nat;
}.

(** Input side: how many [getUserMedia] requests are still unanswered,
    the enabled flags of the microphone stream's audio tracks ([None]
    while there is no stream), whether a script processor is installed,
    whether its input context has been closed, the level meter and the
    mute flag. *)
Record Capture : Type := mkCapture {
  starting : nat;
  mediaStream : option (list bool);
  processor : bool;
  inputClosed : bool;
  audioLevel : Qc;
  isMuted : bool;
}.

(** Booking side: the draft, the finalized booking, the store and the
    number of entropy batches consumed. *)
Record Booking : Type := mkBooking {
  currentBooking : JsObj;
  finalizedBooking : option JsObj;
  localStorage : MockDatabase.Storage;
  draws : nat;
}.

(** What a callback queued behind [sessionPromise.then]. *)
Inductive Task : Type :=
| SendToolResponse (functionResponses : list FunctionResponse)
| SendRealtimeInput (media : string).

(** The session as the client sees it: queued continuations and what has
    been sent, oldest first. *)
Record Channel : Type := mkChannel {
  microtasks : list Task;
  sent : list Task;
}.

(** A session of the streaming channel: connecting, open, failed (an
    error was signalled; only the close is still to come), closed. *)
Inductive SessionPhase : Type := Pending | Opened | Failing | Closed.

#[global] Instance SessionPhase_eq_dec : EqDecision SessionPhase.
Proof. solve_decision. Defined.

(** Connection side: the state cell, every session [ai.live.connect] has
    created (by index), and [sessionRef]. *)
Record Conn : Type := mkConn {
  connectionState : ConnectionState;
  sessions : list SessionPhase;
  sessionRef : option nat;
}.

Record App : Type := mkApp {
  user : option User;
  conn : Conn;
  capture : Capture;
  playback : Playback;
  booking : Booking;
  channel : Channel;
}.

Definition with_conn (c : Conn) (st : App) : App :=
  mkApp (user st) c (capture st) (playback st) (booking st) (channel st).
Definition with_capture (c : Capture) (st : App) : App :=
  mkApp (user st) (conn st) c (playback st) (booking st) (channel st).
Definition with_playback (p : Playback) (st : App) : App :=
  mkApp (user st) (conn st) (capture st) p (booking st) (channel st).
Definition with_booking (b : Booking) (st : App) : App :=
  mkApp (user st) (conn st) (capture st) (playback st) b (channel st).
Definition with_channel (c : Channel) (st : App) : App :=
  mkApp (user st) (conn st) (capture st) (playback st) (booking st) c.

Definition setConnectionState (s : ConnectionState) (st : App) : App :=
  with_conn (mkConn s (sessions (conn st)) (sessionRef (conn st))) st.

(** [sessionPromise.then(f)]: the continuation is queued. *)
Definition then_ (t : Task) (st : App) : App :=
  with_channel (mkChannel (microtasks (channel st) ++ [t]) (sent (channel st))) st.

(** The end of a turn of the event loop: every queued continuation runs,
    in order, before the next event is delivered. *)
Definition drain (st : App) : App :=
  with_channel (mkChannel [] (sent (channel st) ++ microtasks (channel st))) st.

(** [scheduledSources.forEach(s => s.stop())] *)
Definition stop_all (set : gset nat) (ns : list SourceNode) : list SourceNode :=
  imap (λ i n, if decide (i ∈ set) then node_stop n else n) ns.

(** [s.padStart(n, c)] *)
Definition padStart (s : string) (n : nat) (c : ascii) : string :=
  string_of_list_ascii (replicate (n - String.length s) c) +:+ s.

(** [financials?.f || 0] *)
Definition field_or_0 (financials : option Pricing.Financials)
    (f : Pricing.Financials → Z) : Z :=
  match financials with
  | Some fin => num_or (f fin) 0
  | None => 0
  end.

(** [{ ...financials }]: the three fields of the result, nothing for [null]. *)
Definition spread_financials (financials : option Pricing.Financials) : JsObj :=
  match financials with
  | Some fin =>
      {[ "nights" := JNum (Pricing.nights fin); "rate" := JNum (Pricing.rate fin);
         "total" := JNum (Pricing.total fin) ]}
  | None => ∅
  end.

(** The loop of the meter: [sum += inputData[i] * inputData[i]]. *)
Definition sum_squares (inputData : list Qc) : Qc :=
  foldl (λ sum x, sum + x * x)%Qc 0%Qc inputData.

(** [Math.sqrt(sum / inputData.length)]; the script processor delivers
    blocks of 4096 samples, never an empty one. *)
Definition rms_of `{Host} (inputData : list Qc) : Qc :=
  Math_sqrt (sum_squares inputData / Qc_of_Z (Z.of_nat (length inputData)))%Qc.

(** How a handler ends: it returns, or it throws; for the [async]
    [onmessage] a throw rejects the promise the handler returned, which
    nothing observes.  Either way the state is the one reached. *)
Inductive Outcome : Type :=
| Returned (st : App)
| Threw (st : App).

Definition outcome_state (o : Outcome) : App :=
  match o with
  | Returned st | Threw st => st
  end.

Definition with_user (u : option User) (st : App) : App :=
  mkApp u (conn st) (capture st) (playback st) (booking st) (channel st).

(** ** The richer variant *)

Module Richer.

Definition stopAudio (st : App) : App :=
  let c := capture st in
  let p := playback st in
  with_capture (mkCapture (starting c) None false true 0%Qc false)
    (with_playback
       (mkPlayback false 0 (stop_all (scheduledSources p) (nodes p)) ∅) st).

(** The body of [processor.onaudioprocess]. *)
Definition onaudioprocess `{Host} (inputData : list Qc) (st : App) : App :=
  let c := capture st in
  let rms := rms_of inputData in
  let enabled :=
    match mediaStream c with
    | Some tracks => existsb (λ t, t) tracks
    | None => false
    end in
  let level := (audioLevel c * Q2Qc 0.8 + (if enabled then rms else 0) * Q2Qc 2.0)%Qc in
  let st := with_capture
              (mkCapture (starting c) (mediaStream c) (processor c) (inputClosed c) level
                         (isMuted c)) st in
  if inputClosed c then st
  else
    let pcmBlob := createPcmBlob inputData in
    then_ (SendRealtimeInput pcmBlob) st.

Definition toggleMute (st : App) : App :=
  let c := capture st in
  match mediaStream c with
  | Some tracks =>
      let newState := negb (isMuted c) in
      with_capture
        (mkCapture (starting c) (Some (map (λ _, negb newState) tracks)) (processor c)
                   (inputClosed c) (audioLevel c) newState) st
  | None => st
  end.

(** One iteration of the loop over [message.toolCall.functionCalls]:
    the [result] and the state after the branch taken.  [email] is
    [user.email] of the logged-in user the connection was opened for. *)
Definition handle_call `{Host} (email : string) (call : FunctionCall) (st : App)
    : Payload * App :=
  let b := booking st in
  if String.eqb (call_name call) "check_availability" then
    let args := call_args call in
    let financials :=
      Pricing.calculateStayCost (args !! "check_in_date") (args !! "check_out_date")
                                (args !! "room_type") in
    let enrichedDetails :=
      spread args
        {[ "price_per_night" := JNum (field_or_0 financials Pricing.rate);
           "total_cost" := JNum (field_or_0 financials Pricing.total);
           "total_nights" := JNum (field_or_0 financials Pricing.nights) ]} in
    let st := with_booking
                (mkBooking (spread (currentBooking b) enrichedDetails)
                           (finalizedBooking b) (localStorage b) (draws b)) st in
    let result :=
      match financials with
      | Some _ =>
          spread (spread {[ "status" := JStr "available" ]} (spread_financials financials))
                 {[ "currency" := JStr "USD" ]}
      | None =>
          {[ "status" := JStr "unavailable";
             "message" := JStr "Invalid dates or room type." ]}
      end in
    (PObj result, st)
  else if String.eqb (call_name call) "finalize_booking" then
    let bookingData := call_args call in
    let e := entropy (draws b) in
    let confCode := "OMNI-" +:+ padStart (pretty (random_10000 e)) 4 "0" in
    let completeBooking :=
      spread bookingData
        {[ "email" := JStr email; "confirmation_code" := JStr confCode ]} in
    let '(_, ls) :=
      MockDatabase.saveBooking (randomUUID e) (toISOString e) completeBooking
                               (localStorage b) in
    (PObj {[ "confirmation_code" := JStr confCode ]},
     with_booking (mkBooking completeBooking (Some completeBooking) ls (S (draws b))) st)
  else if String.eqb (call_name call) "list_bookings" then
    let activeBookings :=
      filter (λ bk : JsObj, bk !! "status" = Some (JStr "confirmed"))
             (MockDatabase.getBookings email (localStorage b)) in
    (PArr activeBookings, st)
  else if String.eqb (call_name call) "cancel_booking" then
    let confirmation_code := call_args call !! "confirmation_code" in
    let '(success, ls) := MockDatabase.cancelBooking confirmation_code (localStorage b) in
    let st := with_booking
                (mkBooking (currentBooking b) (finalizedBooking b) ls (draws b)) st in
    if success then
      (PObj {[ "status" := JStr "success"; "message" := JStr "Booking cancelled" ]}, st)
    else
      (PObj {[ "status" := JStr "error"; "message" := JStr "Booking not found" ]}, st)
  else
    (PObj ∅, st).

(** The [for] loop, pushing one entry onto [responses] per call. *)
Fixpoint handle_calls `{Host} (email : string) (calls : list FunctionCall)
    (responses : list FunctionResponse) (st : App) : list FunctionResponse * App :=
  match calls with
  | [] => (responses, st)
  | call :: rest =>
      let '(result, st) := handle_call email call st in
      handle_calls email rest
        (responses ++ [mkResponse (call_id call) (call_name call) result]) st
  end.

(** [onmessage].  [currentTime] is the reading of the output context's
    clock when the handler runs. *)
Definition onmessage `{Host} (email : string) (message : LiveServerMessage)
    (currentTime : Z) (st : App) : App :=
  let st :=
    match inlineData message with
    | Some base64Audio =>
        if negb (String.eqb base64Audio "") && outputAudioContext (playback st) then
          let p := playback st in
          let audioBuffer := decodeAudioData base64Audio in
          let startAt := Z.max (nextStartTime p) currentTime in
          let source := length (nodes p) in
          with_playback
            (mkPlayback (outputAudioContext p)
                        (startAt + duration audioBuffer)
                        (nodes p ++ [mkNode audioBuffer startAt false])
                        ({[ source ]} ∪ scheduledSources p)) st
        else st
    | None => st
    end in
  match toolCall message with
  | Some functionCalls =>
      let '(responses, st) := handle_calls email functionCalls [] st in
      then_ (SendToolResponse responses) st
  | None => st
  end.

(** [source.onended] *)
Definition onended (source : nat) (st : App) : App :=
  let p := playback st in
  with_playback
    (mkPlayback (outputAudioContext p) (nextStartTime p) (nodes p)
                (scheduledSources p ∖ {[ source ]})) st.

(** [connectToGemini].  [apiKey] tells whether [process.env.API_KEY]
    is set, [throws] whether building the client or the connect
    request raises before a session exists. *)
Definition connectToGemini (apiKey throws : bool) (st : App) : App :=
  match user st with
  | None => st
  | Some _ =>
      if negb apiKey then st
      else
        let st := setConnectionState CONNECTING st in
        let b := booking st in
        let st := with_booking (mkBooking ∅ None (localStorage b) (draws b)) st in
        if throws then stopAudio (setConnectionState ERROR st)
        else
          let k := conn st in
          with_conn
            (mkConn (connectionState k) (sessions k ++ [Pending])
                    (Some (length (sessions k)))) st
  end.

(** [onopen]; [startAudio] then waits for the microphone. *)
Definition onopen (st : App) : App :=
  let st := setConnectionState CONNECTED st in
  let c := capture st in
  with_capture
    (mkCapture (S (starting c)) (mediaStream c) (processor c) (inputClosed c)
               (audioLevel c) (isMuted c)) st.

(** [startAudio] once [getUserMedia] has answered with [tracks] audio
    tracks: stream, input context, processor and output context are
    installed. *)
Definition startAudio_granted (tracks : nat) (st : App) : App :=
  let c := capture st in
  let p := playback st in
  with_capture
    (mkCapture (pred (starting c)) (Some (replicate tracks true)) true false
               (audioLevel c) (isMuted c))
    (with_playback
       (mkPlayback true (nextStartTime p) (nodes p) (scheduledSources p)) st).

(** The [catch] of [startAudio]. *)
Definition startAudio_failed (st : App) : App :=
  let c := capture st in
  setConnectionState ERROR
    (with_capture
       (mkCapture (pred (starting c)) (mediaStream c) (processor c) (inputClosed c)
                  (audioLevel c) (isMuted c)) st).

Definition onclose (st : App) : App :=
  stopAudio (setConnectionState DISCONNECTED st).

Definition onerror (st : App) : App :=
  stopAudio (setConnectionState ERROR st).

Definition endCall (st : App) : App :=
  match sessionRef (conn st) with
  | Some _ =>
      let st := setConnectionState DISCONNECTED (stopAudio st) in
      let k := conn st in
      with_conn (mkConn (connectionState k) (sessions k) None) st
  | None => st
  end.

(** *** The message handler on messages as delivered *)

(** The branches that read a property of [call.args]:
    [args.check_in_date], and the destructuring
    [const { confirmation_code } = call.args]. *)
Definition reads_args (name : string) : bool :=
  String.eqb name "check_availability" || String.eqb name "cancel_booking".

(** One iteration of the loop on a call as delivered.  [None]: the
    branch throws a [TypeError], because it reads a property of the
    missing [call.args].  The other branches do not read it, or spread
    it ([{ ...undefined }] is the empty object). *)
Definition handle_wire_call `{Host} (email : string) (call : WireCall) (st : App)
    : option (Payload * App) :=
  match wire_args call with
  | Some args => Some (handle_call email (mkCall (wire_id call) (wire_name call) args) st)
  | None =>
      if reads_args (wire_name call) then None
      else Some (handle_call email (mkCall (wire_id call) (wire_name call) ∅) st)
  end.

(** The [for] loop; a throw leaves it, and [responses] is lost with it:
    the state effects of the calls handled so far stay. *)
Fixpoint handle_wire_calls `{Host} (email : string) (calls : list WireCall)
    (responses : list FunctionResponse) (st : App)
    : option (list FunctionResponse) * App :=
  match calls with
  | [] => (Some responses, st)
  | call :: rest =>
      match handle_wire_call email call st with
      | Some (result, st) =>
          handle_wire_calls email rest
            (responses ++ [mkResponse (wire_id call) (wire_name call) result]) st
      | None => (None, st)
      end
  end.

(** [onmessage] on a message as delivered: [parts[0]] of a model turn
    without parts throws before anything is done; the audio part is
    that of [onmessage]; iterating the missing [functionCalls] throws;
    [sendToolResponse] is reached only when no call threw. *)
Definition onmessage_wire `{Host} (email : string) (message : WireMessage)
    (currentTime : Z) (st : App) : Outcome :=
  match wire_modelTurn message with
  | NoParts => Threw st
  | _ =>
      let st :=
        onmessage email
          (mkMessage (wire_inlineData message) (wire_interrupted message) None)
          currentTime st in
      match wire_toolCall message with
      | NoToolCall => Returned st
      | NoFunctionCalls => Threw st
      | FunctionCalls functionCalls =>
          match handle_wire_calls email functionCalls [] st with
          | (Some responses, st) => Returned (then_ (SendToolResponse responses) st)
          | (None, st) => Threw st
          end
      end
  end.

(** *** Logging in and out

    The ['omni_user'] key of the browser's storage is read only when the
    component mounts; the storage modelled is the ['omni_bookings']
    key. *)
Definition handleLogin (u : User) (st : App) : App := with_user (Some u) st.

Definition handleLogout (st : App) : App :=
  let b := booking st in
  with_user None (with_booking (mkBooking ∅ None (localStorage b) (draws b)) st).

(** *** The application as a transition system

    What the user can click follows the buttons the component renders
    for the current connection state; what the channel, the
    microphone and the audio devices can signal follows their
    life cycles. *)
Inductive Event : Type :=
| Start (apiKey throws : bool)
| EndCall
| ToggleMute
| RemoteOpen (sid : nat)
| RemoteMessage (sid : nat) (message : LiveServerMessage) (currentTime : Z)
| RemoteError (sid : nat)
| RemoteClose (sid : nat)
| MicGranted (tracks : nat)
| MicDenied
| AudioProcess (inputData : list Qc)
| SourceEnded (source : nat).

Definition user_initiated (e : Event) : bool :=
  match e with
  | Start _ _ | EndCall | ToggleMute => true
  | _ => false
  end.

(** The Start button is rendered while the state is [DISCONNECTED] or
    [ERROR]; otherwise the Mute and End Call buttons are. *)
Definition start_rendered (st : App) : bool :=
  bool_decide (connectionState (conn st) = DISCONNECTED)
  || bool_decide (connectionState (conn st) = ERROR).

Definition set_phase (sid : nat) (ph : SessionPhase) (st : App) : App :=
  let k := conn st in
  with_conn (mkConn (connectionState k) (<[sid := ph]> (sessions k)) (sessionRef k)) st.

Definition email_of (st : App) : string :=
  match user st with
  | Some u => user_email u
  | None => ""
  end.

(** One turn of the event loop: the handler of the event, then the
    queued continuations.  [None]: the event cannot occur in [st]. *)
Definition step `{Host} (e : Event) (st : App) : option App :=
  drain <$>
  match e with
  | Start apiKey throws =>
      if start_rendered st then Some (connectToGemini apiKey throws st) else None
  | EndCall =>
      if start_rendered st then None else Some (endCall st)
  | ToggleMute =>
      if start_rendered st then None else Some (toggleMute st)
  | RemoteOpen sid =>
      match sessions (conn st) !! sid with
      | Some Pending => Some (onopen (set_phase sid Opened st))
      | _ => None
      end
  | RemoteMessage sid message currentTime =>
      match sessions (conn st) !! sid with
      | Some Opened => Some (onmessage (email_of st) message currentTime st)
      | _ => None
      end
  | RemoteError sid =>
      match sessions (conn st) !! sid with
      | Some Pending | Some Opened => Some (onerror (set_phase sid Failing st))
      | _ => None
      end
  | RemoteClose sid =>
      match sessions (conn st) !! sid with
      | Some Closed | None => None
      | Some _ => Some (onclose (set_phase sid Closed st))
      end
  | MicGranted tracks =>
      if bool_decide (starting (capture st) = 0%nat) then None
      else Some (startAudio_granted tracks st)
  | MicDenied =>
      if bool_decide (starting (capture st) = 0%nat) then None
      else Some (startAudio_failed st)
  | AudioProcess inputData =>
      if processor (capture st) then Some (onaudioprocess inputData st) else None
  | SourceEnded source =>
      if bool_decide (source ∈ scheduledSources (playback st))
      then Some (onended source st) else None
  end.

(** A run: the states visited, the initial one first. *)
Fixpoint run `{Host} (es : list Event) (st : App) : option (list App) :=
  match es with
  | [] => Some [st]
  | e :: es' =>
      match step e st with
      | Some st' => (λ tr, st :: tr) <$> run es' st'
      | None => None
      end
  end.

(** The component as mounted, with [user] logged in or not and
    whatever the browser has stored. *)
Definition init (u : option User) (ls : MockDatabase.Storage) : App :=
  mkApp u (mkConn DISCONNECTED [] None)
        (mkCapture 0 None false false 0%Qc false)
        (mkPlayback false 0 [] ∅)
        (mkBooking ∅ None ls 0)
        (mkChannel [] []).

End Richer.

(** ** The reduced variant *)

Module Reduced.

Definition stopAudio (st : App) : App :=
  let c := capture st in
  let p := playback st in
  with_capture
    (mkCapture (starting c) None (processor c) true 0%Qc (isMuted c))
    (with_playback
       (mkPlayback false 0 (stop_all (scheduledSources p) (nodes p)) ∅) st).

(** The body of [scriptProcessor.onaudioprocess]; [isMutedRef] is kept
    equal to [isMuted] by the effect that follows each render. *)
Definition onaudioprocess `{Host} (inputData : list Qc) (st : App) : App :=
  let c := capture st in
  let st := with_capture
              (mkCapture (starting c) (mediaStream c) (processor c) (inputClosed c)
                         (rms_of inputData) (isMuted c)) st in
  if negb (isMuted c) then
    let pcmBlob := createPcmBlob inputData in
    then_ (SendRealtimeInput pcmBlob) st
  else st.

(** The click handler of the mute button: [setIsMuted(!isMuted)]. *)
Definition toggleMute (st : App) : App :=
  let c := capture st in
  with_capture
    (mkCapture (starting c) (mediaStream c) (processor c) (inputClosed c)
               (audioLevel c) (negb (isMuted c))) st.

(** A field set from an expression that may be [undefined]; a field
    holding [undefined] reads like a missing one. *)
Definition set_opt (key : string) (v : option JsVal) (o : JsObj) : JsObj :=
  match v with
  | Some v => <[ key := v ]> o
  | None => delete key o
  end.

(** One iteration of the loop over the function calls. *)
Definition handle_call `{Host} (call : FunctionCall) (st : App) : Payload * App :=
  let b := booking st in
  if String.eqb (call_name call) "check_availability" then
    let args := call_args call in
    let financials :=
      Pricing.calculateStayCost (args !! "check_in_date") (args !! "check_out_date")
                                (args !! "room_type") in
    let st := with_booking
                (mkBooking
                   (set_opt "total_cost" (JNum ∘ Pricing.total <$> financials) args)
                   (finalizedBooking b) (localStorage b) (draws b)) st in
    (PObj (spread {[ "status" := JStr "available" ]} (spread_financials financials)), st)
  else if String.eqb (call_name call) "finalize_booking" then
    let e := entropy (draws b) in
    let code := "OMNI-" +:+ random_base36 e in
    let booking_ :=
      <[ "confirmation_code" := JStr code ]>
        (set_opt "email" (JStr ∘ user_email <$> user st) (call_args call)) in
    let '(_, ls) :=
      MockDatabase.saveBooking (randomUUID e) (toISOString e) booking_ (localStorage b) in
    (PObj {[ "status" := JStr "success"; "confirmation_code" := JStr code ]},
     with_booking (mkBooking (currentBooking b) (Some booking_) ls (S (draws b))) st)
  else
    (PObj ∅, st).

(** The [for] loop: each call queues its own [sendToolResponse]. *)
Fixpoint handle_calls `{Host} (calls : list FunctionCall) (st : App) : App :=
  match calls with
  | [] => st
  | call :: rest =>
      let '(result, st) := handle_call call st in
      handle_calls rest
        (then_ (SendToolResponse [mkResponse (call_id call) (call_name call) result]) st)
  end.

Definition onmessage `{Host} (message : LiveServerMessage) (currentTime : Z)
    (st : App) : App :=
  let st :=
    if interrupted message then
      let p := playback st in
      with_playback
        (mkPlayback (outputAudioContext p) 0
                    (stop_all (scheduledSources p) (nodes p)) ∅) st
    else st in
  let st :=
    match inlineData message with
    | Some base64Audio =>
        if negb (String.eqb base64Audio "") then
          let p := playback st in
          let audioBuffer := decodeAudioData base64Audio in
          let source := length (nodes p) in
          let startAt := Z.max (nextStartTime p) currentTime in
          with_playback
            (mkPlayback true
                        (startAt + duration audioBuffer)
                        (nodes p ++ [mkNode audioBuffer startAt false])
                        ({[ source ]} ∪ scheduledSources p)) st
        else st
    | None => st
    end in
  match toolCall message with
  | Some functionCalls => handle_calls functionCalls st
  | None => st
  end.

(** [source.onended] *)
Definition onended (source : nat) (st : App) : App :=
  let p := playback st in
  with_playback
    (mkPlayback (outputAudioContext p) (nextStartTime p) (nodes p)
                (scheduledSources p ∖ {[ source ]})) st.

(** *** The message handler on messages as delivered *)

(** Only [check_availability] reads a property of [call.args] here. *)
Definition reads_args (name : string) : bool := String.eqb name "check_availability".

Definition handle_wire_call `{Host} (call : WireCall) (st : App) : option (Payload * App) :=
  match wire_args call with
  | Some args => Some (handle_call (mkCall (wire_id call) (wire_name call) args) st)
  | None =>
      if reads_args (wire_name call) then None
      else Some (handle_call (mkCall (wire_id call) (wire_name call) ∅) st)
  end.

(** The [for] loop: the sends queued by the calls before a throw stay
    queued. *)
Fixpoint handle_wire_calls `{Host} (calls : list WireCall) (st : App) : Outcome :=
  match calls with
  | [] => Returned st
  | call :: rest =>
      match handle_wire_call call st with
      | Some (result, st) =>
          handle_wire_calls rest
            (then_ (SendToolResponse [mkResponse (wire_id call) (wire_name call) result]) st)
      | None => Threw st
      end
  end.

(** [onmessage] on a message as delivered: the interruption is handled
    before [parts[0]] is read. *)
Definition onmessage_wire `{Host} (message : WireMessage) (currentTime : Z)
    (st : App) : Outcome :=
  match wire_modelTurn message with
  | NoParts =>
      Threw (onmessage (mkMessage None (wire_interrupted message) None) currentTime st)
  | _ =>
      let st :=
        onmessage (mkMessage (wire_inlineData message) (wire_interrupted message) None)
                  currentTime st in
      match wire_toolCall message with
      | NoToolCall => Returned st
      | NoFunctionCalls => Threw st
      | FunctionCalls functionCalls => handle_wire_calls functionCalls st
      end
  end.

End Reduced.

(** ** Vocabulary of the specification *)

(** [r] occurs in [s] up to the case of ASCII letters. *)
Definition ci_substring (r s : string) : Prop :=
  ∃ pre mid post, s = pre +:+ mid +:+ post ∧ toLowerCase mid = toLowerCase r.

(** The responses answer the calls one for one, each carrying the id and
    the name of its call. *)
Definition answers (calls : list FunctionCall) (responses : list FunctionResponse) : Prop :=
  Forall2 (λ c r, resp_id r = call_id c ∧ resp_name r = call_name c) calls responses.




(** The tool vocabulary declared to the remote agent. *)
Definition tool_vocabulary : list string :=
  [ "check_availability"; "finalize_booking"; "list_bookings"; "cancel_booking" ].

(** A structured error result, in the shape the cancel handler reports a
    failure: an object whose [status] is ["error"]. *)
Definition is_error_result (r : Payload) : Prop :=
  match r with
  | PObj o => o !! "status" = Some (JStr "error")
  | PArr _ => False
  end.

(** A message that carries one audio chunk and nothing else. *)
Definition audio_message (data : string) : LiveServerMessage :=
  mkMessage (Some data) false None.

(** A message that carries the interruption signal and nothing else. *)
Definition interrupt_message : LiveServerMessage := mkMessage None true None.

(** A chunk as it arrives: its payload and the reading of the output
    clock on arrival. *)
Abbreviation Arrival := (string * Z)%type.

(** The two handlers fed a sequence of audio-only messages. *)
Definition richer_enqueue_all `{Host} (email : string) (chunks : list Arrival) (st : App) : App :=
  foldl (λ st c, Richer.onmessage email (audio_message c.1) c.2 st) st chunks.

Definition reduced_enqueue_all `{Host} (chunks : list Arrival) (st : App) : App :=
  foldl (λ st c, Reduced.onmessage (audio_message c.1) c.2 st) st chunks.

(** The schedule the specification describes: each chunk starts at the
    later of the playback clock and its arrival, and moves the clock to
    its own end. *)
Fixpoint sched `{Host} (clock : Z) (chunks : list Arrival) : list SourceNode :=
  match chunks with
  | [] => []
  | c :: rest =>
      let buf := decodeAudioData c.1 in
      let startAt := Z.max clock c.2 in
      mkNode buf startAt false :: sched (startAt + duration buf) rest
  end.

(** Sum of the durations of the chunks. *)
Definition total_duration `{Host} (chunks : list Arrival) : Z :=
  foldr (λ c acc, duration (decodeAudioData c.1) + acc) 0 chunks.

(** Every chunk after the first arrives no later than the end of the
    node scheduled for its predecessor. *)
Definition arrives_in_time (new : list SourceNode) (chunks : list Arrival) : Prop :=
  ∀ i n c, new !! i = Some n → chunks !! S i = Some c → c.2 ≤ node_end n.




(** No connection attempt is waiting for its open event. *)
Definition no_pending (st : App) : Prop := Pending ∉ sessions (conn st).

(** The connection state of a state, and of each state of a run. *)
Definition state_of (st : App) : ConnectionState := connectionState (conn st).

(** What a turn does to the connection state and the sessions. *)
Inductive conn_effect (st st' : App) : Richer.Event → Prop :=
| eff_start_noop apiKey throws :
    conn st' = conn st → conn_effect st st' (Richer.Start apiKey throws)
| eff_start_throws apiKey :
    state_of st' = ERROR → sessions (conn st') = sessions (conn st) →
    conn_effect st st' (Richer.Start apiKey true)
| eff_start_session apiKey :
    state_of st' = CONNECTING → sessions (conn st') = sessions (conn st) ++ [Pending] →
    conn_effect st st' (Richer.Start apiKey false)
| eff_end_noop :
    conn st' = conn st → conn_effect st st' Richer.EndCall
| eff_end :
    state_of st' = DISCONNECTED → sessions (conn st') = sessions (conn st) →
    conn_effect st st' Richer.EndCall
| eff_open sid :
    sessions (conn st) !! sid = Some Pending →
    state_of st' = CONNECTED → sessions (conn st') = <[sid := Opened]> (sessions (conn st)) →
    conn_effect st st' (Richer.RemoteOpen sid)
| eff_error sid :
    state_of st' = ERROR → sessions (conn st') = <[sid := Failing]> (sessions (conn st)) →
    conn_effect st st' (Richer.RemoteError sid)
| eff_close sid :
    state_of st' = DISCONNECTED → sessions (conn st') = <[sid := Closed]> (sessions (conn st)) →
    conn_effect st st' (Richer.RemoteClose sid)
| eff_mic_denied :
    state_of st' = ERROR → sessions (conn st') = sessions (conn st) →
    conn_effect st st' Richer.MicDenied
| eff_other e :
    match e with
    | Richer.ToggleMute | Richer.RemoteMessage _ _ _ | Richer.MicGranted _
    | Richer.AudioProcess _ | Richer.SourceEnded _ => True
    | _ => False
    end →
    conn st' = conn st → conn_effect st st' e.

(** ** Example inputs

    A logged-in user on the example host, and the inputs the closed
    statements below are evaluated on. *)

Definition demo_user : User := mkUser "u1" "Ada" "ada@example.org".

Definition demo_state : App := Richer.init (Some demo_user) None.

Definition demo_check : FunctionCall :=
  mkCall "call-1" "check_availability"
    {[ "room_type" := JStr "suite"; "check_in_date" := JStr "2024-06-01";
       "check_out_date" := JStr "2024-06-03" ]}.

Definition demo_check_bad : FunctionCall :=
  mkCall "call-2" "check_availability"
    {[ "room_type" := JStr "suite"; "check_in_date" := JStr "not-a-date";
       "check_out_date" := JStr "2024-06-05" ]}.

Definition demo_unknown : FunctionCall := mkCall "call-3" "get_weather" ∅.

Definition demo_batch : LiveServerMessage :=
  mkMessage None false (Some [demo_check; demo_unknown]).

(** A state in which the output context is in place. *)
Definition demo_ready : App := with_playback (mkPlayback true 0 [] ∅) demo_state.

Definition demo_frame : list Qc := [Q2Qc 0.5; Q2Qc 0.5].

(** A state in which the microphone stream with one track is in place. *)
Definition demo_live : App :=
  with_capture (mkCapture 0 (Some [true]) true false 0%Qc false) demo_ready.

(** A session is opened, fails and is closed; the user reconnects. *)
Definition demo_reconnect : list Richer.Event :=
  [ Richer.Start true false; Richer.RemoteOpen 0; Richer.RemoteError 0;
    Richer.RemoteClose 0; Richer.Start true false; Richer.RemoteOpen 1 ].

(** The user starts a call, ends it while it is still connecting, and
    starts another one; the second attempt fails, then the first opens. *)
Definition demo_stale_open : list Richer.Event :=
  [ Richer.Start true false; Richer.EndCall; Richer.Start true false;
    Richer.RemoteError 1; Richer.RemoteOpen 0 ].

(** A session opens and is closed by the remote side while the
    microphone request is unanswered; the user reconnects, the
    microphone is denied, and the new session opens. *)
Definition demo_late_mic : list Richer.Event :=
  [ Richer.Start true false; Richer.RemoteOpen 0; Richer.RemoteClose 0;
    Richer.Start true false; Richer.MicDenied; Richer.RemoteOpen 1 ].

Definition states_of `{Host} (es : list Richer.Event) (st : App)
    : option (list ConnectionState) :=
  map state_of <$> Richer.run es st.

(** ** The bookings drawer and the header badge of the richer variant *)

(** [bookings.filter(b => b.status === 'confirmed' || b.status === 'pending')] *)
Definition drawer_upcoming (bookings : list JsObj) : list JsObj :=
  filter (λ b : JsObj, b !! "status" = Some (JStr "confirmed") ∨
                       b !! "status" = Some (JStr "pending")) bookings.

(** [bookings.filter(b => b.status === 'cancelled')] *)
Definition drawer_history (bookings : list JsObj) : list JsObj :=
  filter (λ b : JsObj, b !! "status" = Some (JStr "cancelled")) bookings.

(** [user ? MockDatabase.getBookings(user.email) : []] *)
Definition userBookings (st : App) : list JsObj :=
  match user st with
  | Some u => MockDatabase.getBookings (user_email u) (localStorage (booking st))
  | None => []
  end.

(** [userBookings.filter(b => b.status === 'confirmed').length] *)
Definition activeBookingsCount (st : App) : nat :=
  length (filter (λ b : JsObj, b !! "status" = Some (JStr "confirmed")) (userBookings st)).

(** The drawer's [onCancel]: [MockDatabase.cancelBooking(code)], then a
    refresh of the derived lists. *)
Definition drawer_onCancel (code : string) (st : App) : App :=
  let b := booking st in
  with_booking
    (mkBooking (currentBooking b) (finalizedBooking b)
               (MockDatabase.cancelBooking (Some (JStr code)) (localStorage b)).2 (draws b)) st.

(** ** The whole component as a transition system

    The call machine [Richer.step], together with what it leaves out:
    logging in and out, the cancel button of the drawer, and messages
    handled for the user the session was opened for.  The handler of a
    session closes over the user of the render that connected, so the
    e-mail it stores and lists under is that user's, whoever is logged
    in when the message arrives: [SessionMessage] carries that e-mail,
    left unconstrained here.  No guard of the user interface is
    modelled for the three user events: what holds of every sequence of
    these events holds of the sequences the interface allows. *)
Inductive AppEvent : Type :=
| Turn (e : Richer.Event)
| SessionMessage (sid : nat) (email : string) (message : WireMessage) (currentTime : Z)
| Login (u : User)
| Logout
| DrawerCancel (code : string).

Definition app_step `{Host} (e : AppEvent) (st : App) : option App :=
  match e with
  | Turn (Richer.RemoteMessage _ _ _) => None
  | Turn e => Richer.step e st
  | SessionMessage sid email message currentTime =>
      match sessions (conn st) !! sid with
      | Some Opened =>
          Some (drain (outcome_state (Richer.onmessage_wire email message currentTime st)))
      | _ => None
      end
  | Login u => Some (Richer.handleLogin u st)
  | Logout => Some (Richer.handleLogout st)
  | DrawerCancel code => Some (drawer_onCancel code st)
  end.

(** A run: the states visited, the initial one first. *)
Fixpoint app_run `{Host} (es : list AppEvent) (st : App) : option (list App) :=
  match es with
  | [] => Some [st]
  | e :: es' =>
      match app_step e st with
      | Some st' => (λ tr, st :: tr) <$> app_run es' st'
      | None => None
      end
  end.

(** ** Further vocabulary *)

(** What [cancelBooking] does to one booking. *)
Definition mark_cancelled (code : option JsVal) (b : JsObj) : JsObj :=
  if decide (b !! "confirmation_code" = code) then <[ "status" := JStr "cancelled" ]> b else b.

Definition is_digit (c : ascii) : bool :=
  let n := Ascii.N_of_ascii c in ((48 <=? n) && (n <=? 57))%N.

(** ["OMNI-"] followed by exactly four decimal digits. *)
Definition conf_code_ok (s : string) : bool :=
  match s with
  | String "O" (String "M" (String "N" (String "I" (String "-"
      (String d1 (String d2 (String d3 (String d4 EmptyString)))))))) =>
      is_digit d1 && is_digit d2 && is_digit d3 && is_digit d4
  | _ => false
  end.

(** A booking as the richer [finalize_booking] stores it for the user
    with e-mail [email], possibly cancelled since. *)
Definition stored_ok (email : string) (b : JsObj) : Prop :=
  b !! "email" = Some (JStr email) ∧
  (b !! "status" = Some (JStr "confirmed") ∨ b !! "status" = Some (JStr "cancelled")) ∧
  (∃ code, b !! "confirmation_code" = Some (JStr code)) ∧
  (∃ id, b !! "id" = Some (JStr id)) ∧
  (∃ created_at, b !! "created_at" = Some (JStr created_at)).

(** A stored booking of some user, well formed. *)
Definition stored_wf (b : JsObj) : Prop := ∃ email, stored_ok email b.

(** Every stored booking is one of the logged-in user's, well formed. *)
Definition store_ok (st : App) : Prop :=
  Forall (stored_ok (Richer.email_of st)) (MockDatabase.load (localStorage (booking st))).

(** How the store may change: what was stored stays, in order and with
    every field but the status as it was; new bookings come in front. *)
Definition store_extends (l l' : list JsObj) : Prop :=
  ∃ new : list JsObj, delete "status" <$> l' = new ++ (delete "status" <$> l).

(** A change of the store that keeps what was stored, and keeps the
    stored bookings well formed. *)
Definition store_grows (l l' : list JsObj) : Prop :=
  store_extends l l' ∧ (Forall stored_wf l → Forall stored_wf l').

(** Every scheduled source is a started node that has not been stopped
    and ends no later than the playback clock; without an output context
    nothing is scheduled and the clock is at 0; the clock is never
    negative. *)
Definition playback_ok (p : Playback) : Prop :=
  (∀ i, i ∈ scheduledSources p →
        ∃ n, nodes p !! i = Some n ∧ node_stopped n = false ∧ node_end n ≤ nextStartTime p) ∧
  (outputAudioContext p = false → scheduledSources p = ∅ ∧ nextStartTime p = 0) ∧
  0 ≤ nextStartTime p.

(** The pieces of the richer [finalize_booking] branch, by name: the
    confirmation code drawn in state [st], the completed booking, and
    the booking as [saveBooking] stamps it. *)
Definition richer_confCode `{Host} (st : App) : string :=
  "OMNI-" +:+ padStart (pretty (random_10000 (entropy (draws (booking st))))) 4 "0".

Definition richer_completeBooking `{Host} (email : string) (args : JsObj) (st : App) : JsObj :=
  spread args {[ "email" := JStr email; "confirmation_code" := JStr (richer_confCode st) ]}.

Definition richer_savedBooking `{Host} (email : string) (args : JsObj) (st : App) : JsObj :=
  spread (richer_completeBooking email args st)
    {[ "id" := JStr (randomUUID (entropy (draws (booking st))));
       "created_at" := JStr (toISOString (entropy (draws (booking st))));
       "status" := JStr "confirmed" ]}.

(** A [finalize_booking] call that passes an e-mail of its own, and a
    [list_bookings] call. *)
Definition demo_finalize : FunctionCall :=
  mkCall "call-4" "finalize_booking"
    {[ "guest_name" := JStr "Ada Lovelace"; "email" := JStr "someone@else.org";
       "room_type" := JStr "suite" ]}.

Definition demo_list : FunctionCall := mkCall "call-5" "list_bookings" ∅.

(** A message that interrupts and carries the first chunk of the next
    answer. *)
Definition demo_barge_in : LiveServerMessage := mkMessage (Some "ab") true None.

(** A whole call: audio arrives before and after the microphone is
    granted, a booking is finalized, listed and cancelled, a source
    ends, and the user hangs up. *)
Definition demo_call : list Richer.Event :=
  [ Richer.Start true false; Richer.RemoteOpen 0;
    Richer.RemoteMessage 0 (audio_message "early") 0;
    Richer.MicGranted 1;
    Richer.RemoteMessage 0 (audio_message "abcd") 0;
    Richer.RemoteMessage 0 (mkMessage (Some "ab") false (Some [demo_finalize; demo_list])) 1;
    Richer.SourceEnded 0;
    Richer.RemoteMessage 0
      (mkMessage None false
         (Some [mkCall "call-6" "cancel_booking" {[ "confirmation_code" := JStr "OMNI-0042" ]}]))
      5;
    Richer.EndCall ].

(** The state after the richer handler has finalized [demo_finalize]. *)
Definition demo_booked : App :=
  (@Richer.handle_call iso_host "ada@example.org" demo_finalize demo_state).2.



Definition demo_other_user : User := mkUser "u2" "Bob" "bob@example.org".

(** Two users on one browser: Ada connects and books, logs out while
    the session is open; Bob logs in; Ada's session books again and
    cancels; Bob cancels from the drawer. *)
Definition demo_two_users : list AppEvent :=
  [ Login demo_user; Turn (Richer.Start true false); Turn (Richer.RemoteOpen 0);
    SessionMessage 0 "ada@example.org"
      (mkWireMessage NoModelTurn false
         (FunctionCalls [mkWireCall "call-4" "finalize_booking" (Some {[ "name" := JStr "Ada" ]})]))
      0;
    Logout; Login demo_other_user;
    SessionMessage 0 "ada@example.org"
      (mkWireMessage (Parts (Some "ab")) false
         (FunctionCalls [ mkWireCall "call-5" "finalize_booking" None;
                          mkWireCall "call-6" "cancel_booking" None ]))
      1;
    DrawerCancel "OMNI-0042" ].

(** * Properties *)

(** Case analysis on the name of a tool call. *)
Ltac case_tool_name :=
  repeat match goal with
         | |- context [String.eqb (call_name ?c) ?n] =>
             destruct (String.eqb_spec (call_name c) n)
         end.

(** ** Strings and arithmetic *)

Lemma startsWith_spec (s r : string) :
  startsWith s r = true ↔ ∃ post, s = r +:+ post.
Proof.
  revert s. induction r as [|a r IH]; intros s; simpl.
  - split; [intros _; by exists s | done].
  - destruct s as [|b s].
    + split; [done | intros [post Hp]; discriminate].
    + destruct (Ascii.eqb_spec a b) as [->|Hne].
      * rewrite IH. split; intros [post Hp]; exists post; [by rewrite Hp | by injection Hp].
      * split; [done | intros [post Hp]; injection Hp; congruence].
Qed.

Lemma includes_spec (s r : string) :
  includes s r = true ↔ ∃ pre post, s = pre +:+ r +:+ post.
Proof.
  induction s as [|b s IH]; simpl.
  - rewrite orb_false_r, startsWith_spec. split.
    + intros [post Hp]. by exists "", post.
    + intros [pre [post Hp]]. destruct pre; [by exists post | discriminate].
  - rewrite orb_true_iff, startsWith_spec, IH. split.
    + intros [[post Hp] | [pre [post Hp]]].
      * by exists "", post.
      * exists (String b pre), post. simpl. by rewrite Hp.
    + intros [pre [post Hp]]. destruct pre as [|c pre]; simpl in Hp.
      * left. by exists post.
      * right. exists pre, post. by injection Hp.
Qed.

Lemma toLowerCase_app (a b : string) :
  toLowerCase (a +:+ b) = toLowerCase a +:+ toLowerCase b.
Proof. induction a as [|c a IH]; simpl; [done | by rewrite IH]. Qed.

Lemma toLowerCase_split (s x y : string) :
  toLowerCase s = x +:+ y →
  ∃ a b, s = a +:+ b ∧ toLowerCase a = x ∧ toLowerCase b = y.
Proof.
  revert s. induction x as [|c x IH]; intros s Hs; simpl in Hs.
  - by exists "", s.
  - destruct s as [|d s]; [discriminate |]. simpl in Hs.
    injection Hs as Hc Hrest. destruct (IH _ Hrest) as (a & b & -> & Ha & Hb).
    exists (String d a), b. simpl. by rewrite Hc, Ha.
Qed.

Lemma includes_toLowerCase (s r : string) :
  toLowerCase r = r →
  includes (toLowerCase s) r = true ↔ ci_substring r s.
Proof.
  intros Hr. rewrite includes_spec. split.
  - intros (pre & post & Hs).
    destruct (toLowerCase_split _ _ _ Hs) as (a & bc & -> & Ha & Hbc).
    destruct (toLowerCase_split _ _ _ Hbc) as (b & c & -> & Hb & Hc).
    exists a, b, c. split; [done | congruence].
  - intros (pre & mid & post & -> & Hmid).
    exists (toLowerCase pre), (toLowerCase post).
    rewrite !toLowerCase_app. congruence.
Qed.

Lemma Math_ceil_div_spec (a b : Z) :
  0 < b →
  (Math_ceil_div a b - 1) * b < a ≤ Math_ceil_div a b * b.
Proof.
  intros Hb. unfold Math_ceil_div.
  pose proof (Z.div_mod a b ltac:(lia)) as Hdm.
  pose proof (Z.mod_pos_bound a b Hb) as Hm.
  destruct (Z.eqb_spec (a mod b) 0) as [H0|H0]; nia.
Qed.

Lemma ceil_unique (a b c c' : Z) :
  0 < b → (c - 1) * b < a ≤ c * b → (c' - 1) * b < a ≤ c' * b → c = c'.
Proof. intros Hb H1 H2. nia. Qed.

Lemma num_or_1_max (n : Z) : 0 ≤ n → num_or n 1 = Z.max 1 n.
Proof. intros Hn. unfold num_or. destruct (Z.eqb_spec n 0); lia. Qed.

(** ** Pricing *)

Section pricing.
Context `{Host}.
Import Pricing.

(** [find] returns the first key the predicate accepts, and the table
    lookup of that key is the rate written next to it. *)
Lemma find_first_key (p : string → bool) (o pre post : list (string * Z)) k r :
  NoDup (Object_keys o) →
  o = (pre ++ (k, r) :: post)%list →
  p k = true →
  (∀ k', k' ∈ Object_keys pre → p k' = false) →
  find p (Object_keys o) = Some k ∧ prop_get o k = Some r.
Proof.
  intros Hnd -> Hk Hpre. revert Hnd Hpre.
  induction pre as [|[k0 r0] pre IH]; simpl; intros Hnd Hpre.
  - rewrite Hk, String.eqb_refl. done.
  - rewrite (Hpre k0) by apply list_elem_of_here.
    apply NoDup_cons in Hnd as [Hnotin Hnd].
    destruct (String.eqb_spec k0 k) as [->|Hne].
    + exfalso. apply Hnotin. unfold Object_keys. rewrite fmap_app.
      apply elem_of_app. right. apply list_elem_of_here.
    + apply IH; [done |]. intros k' Hk'. apply Hpre. by apply list_elem_of_further.
Qed.

Lemma find_no_key (p : string → bool) (ks : list string) :
  (∀ k, k ∈ ks → p k = false) → find p ks = None.
Proof.
  induction ks as [|k ks IH]; simpl; intros Hall; [done |].
  rewrite (Hall k) by apply list_elem_of_here.
  apply IH. intros k' Hk'. apply Hall. by apply list_elem_of_further.
Qed.

Lemma ROOM_RATES_NoDup : NoDup (Object_keys ROOM_RATES).
Proof. by apply (bool_decide_unpack _). Qed.

Lemma ROOM_RATES_keys_lower k :
  k ∈ Object_keys ROOM_RATES → toLowerCase k = k ∧ k ≠ "".
Proof.
  unfold Object_keys, ROOM_RATES. simpl. rewrite !elem_of_cons, elem_of_nil.
  intros [->|[->|[->|[->|[->|[->|[]]]]]]]; done.
Qed.

(** The key the fuzzy match settles on always has a rate. *)
Lemma rate_key_in_table (roomType : string) :
  is_Some (prop_get ROOM_RATES (rate_key roomType)).
Proof.
  unfold rate_key.
  destruct (find _ _) as [k|] eqn:Hfind; [|by eexists].
  apply find_some in Hfind as [Hin _].
  apply list_elem_of_In in Hin.
  unfold Object_keys, ROOM_RATES in Hin. simpl in Hin.
  rewrite !elem_of_cons, elem_of_nil in Hin.
  destruct Hin as [->|[->|[->|[->|[->|[->|[]]]]]]]; by eexists.
Qed.

(** With two valid dates, the result is the night count and rate the
    code computes, whatever the room-type text. *)
Lemma price_valid (checkIn checkOut roomType : string) (start end_ : Z) :
  Date_parse checkIn = Some start →
  Date_parse checkOut = Some end_ →
  ∃ rate,
    prop_get ROOM_RATES (rate_key roomType) = Some rate ∧
    price checkIn checkOut roomType =
      Some (mkFinancials
              (num_or (Math_ceil_div (Z.abs (end_ - start)) ms_per_day) 1)
              rate
              (num_or (Math_ceil_div (Z.abs (end_ - start)) ms_per_day) 1 * rate)).
Proof.
  intros Hs He. destruct (rate_key_in_table roomType) as [rate Hrate].
  exists rate. split; [done |].
  unfold price, calculateStayCost, Date_getTime. by rewrite Hs, He, Hrate.
Qed.

Lemma nights_nonneg (start end_ : Z) :
  0 ≤ Math_ceil_div (Z.abs (end_ - start)) ms_per_day.
Proof.
  pose proof (Math_ceil_div_spec (Z.abs (end_ - start)) ms_per_day ltac:(done)).
  unfold ms_per_day in *. lia.
Qed.

Lemma str_or_key (k : string) : k ≠ "" → str_or (Some k) "standard" = k.
Proof. by destruct k. Qed.

(** C6 (as amended).  For two dates that parse, to time values at most
    [2 ^ 53] milliseconds apart (some 285,000 years: the range in which
    the difference is a double and [Math.ceil] of the double quotient
    is the exact ceiling), the priced nights are
    [max 1 (ceiling of the absolute difference in days)]: the result is
    the same whichever of the two dates comes first, a same-day stay is
    one night, and the total is nights times the nightly rate. *)
Theorem C6_nights_abs_ceiling (checkIn checkOut roomType : string) (start end_ : Z) :
  Date_parse checkIn = Some start →
  Date_parse checkOut = Some end_ →
  Z.abs (end_ - start) ≤ 2 ^ 53 →
  ∃ f, price checkIn checkOut roomType = Some f ∧
       (∃ c, (c - 1) * ms_per_day < Z.abs (end_ - start) ≤ c * ms_per_day ∧
             nights f = Z.max 1 c) ∧
       (start = end_ → nights f = 1) ∧
       price checkOut checkIn roomType = Some f ∧
       total f = nights f * rate f.
Proof.
  intros Hs He _.
  destruct (price_valid checkIn checkOut roomType _ _ Hs He) as (r & Hr & Hp).
  destruct (price_valid checkOut checkIn roomType _ _ He Hs) as (r' & Hr' & Hp').
  eexists. split; [exact Hp |]. simpl.
  pose proof (nights_nonneg start end_) as Hnn.
  repeat split.
  - exists (Math_ceil_div (Z.abs (end_ - start)) ms_per_day). split.
    + by apply Math_ceil_div_spec.
    + by apply num_or_1_max.
  - intros ->. by rewrite Z.sub_diag.
  - rewrite Hp'. rewrite Hr in Hr'. injection Hr' as <-.
    by replace (Z.abs (start - end_)) with (Z.abs (end_ - start)) by lia.
Qed.

(** C7.  With two dates that parse, pricing succeeds for every
    room-type text; the rate is the one of the first table key, in the
    order the table is written, that occurs in the text up to letter
    case, and the standard rate of 150 when no key occurs. *)
Theorem C7_rate_first_matching_key (checkIn checkOut roomType : string) (start end_ : Z) :
  Date_parse checkIn = Some start →
  Date_parse checkOut = Some end_ →
  ∃ f, price checkIn checkOut roomType = Some f ∧
       (∀ pre k r post,
          ROOM_RATES = (pre ++ (k, r) :: post)%list →
          ci_substring k roomType →
          (∀ k', k' ∈ Object_keys pre → ¬ ci_substring k' roomType) →
          rate f = r) ∧
       ((∀ k, k ∈ Object_keys ROOM_RATES → ¬ ci_substring k roomType) →
        rate f = 150).
Proof.
  intros Hs He.
  destruct (price_valid checkIn checkOut roomType _ _ Hs He) as (r0 & Hr0 & Hp).
  eexists. split; [exact Hp |]. simpl. split.
  - intros pre k r post Hsplit Hk Hpre.
    assert (Hin : k ∈ Object_keys ROOM_RATES).
    { rewrite Hsplit. unfold Object_keys. rewrite fmap_app.
      apply elem_of_app. right. apply list_elem_of_here. }
    destruct (ROOM_RATES_keys_lower k Hin) as [Hlow Hne].
    destruct (find_first_key (λ r, includes (toLowerCase roomType) r)
                ROOM_RATES pre post k r ROOM_RATES_NoDup Hsplit) as [Hfind Hget].
    + by apply includes_toLowerCase.
    + intros k' Hk'. apply not_true_is_false. intros Hinc.
      apply (Hpre k' Hk'). apply includes_toLowerCase; [|done].
      apply ROOM_RATES_keys_lower. rewrite Hsplit. unfold Object_keys in *.
      rewrite fmap_app. apply elem_of_app. by left.
    + unfold rate_key in Hr0. rewrite Hfind, (str_or_key k Hne) in Hr0. congruence.
  - intros Hnone. unfold rate_key in Hr0. rewrite find_no_key in Hr0.
    + simpl in Hr0. congruence.
    + intros k Hk. apply not_true_is_false. intros Hinc.
      apply (Hnone k Hk). apply includes_toLowerCase; [|done].
      by apply ROOM_RATES_keys_lower.
Qed.

End pricing.

(** Two stays priced on the ISO host: four nights in a deluxe room. *)
Lemma C6_nights_abs_ceiling_witness :
  Date_parse_iso "2024-06-01" = Some 1717200000000 ∧
  Date_parse_iso "2024-06-05" = Some 1717545600000 ∧
  Z.abs (1717545600000 - 1717200000000) ≤ 2 ^ 53 ∧
  ∃ f, @Pricing.price iso_host "2024-06-01" "2024-06-05" "deluxe room please" = Some f ∧
       (∃ c, (c - 1) * ms_per_day < Z.abs (1717545600000 - 1717200000000) ≤ c * ms_per_day ∧
             Pricing.nights f = Z.max 1 c) ∧
       (1717200000000 = 1717545600000 → Pricing.nights f = 1) ∧
       @Pricing.price iso_host "2024-06-05" "2024-06-01" "deluxe room please" = Some f ∧
       Pricing.total f = Pricing.nights f * Pricing.rate f.
Proof.
  split; [reflexivity |]. split; [reflexivity |]. split; [by vm_compute |].
  apply (@C6_nights_abs_ceiling iso_host "2024-06-01" "2024-06-05" "deluxe room please"
           1717200000000 1717545600000); [reflexivity | reflexivity | by vm_compute].
Defined.

(** C6 as stated fails on inverted dates: checking out four days before
    checking in is priced as four nights, not one. *)
Lemma C6_inverted_dates_counterexample :
  Date_parse_iso "2024-06-05" = Some 1717545600000 ∧
  Date_parse_iso "2024-06-01" = Some 1717200000000 ∧
  1717200000000 < 1717545600000 ∧
  @Pricing.price iso_host "2024-06-05" "2024-06-01" "standard"
    = Some (Pricing.mkFinancials 4 150 600) ∧
  Pricing.nights (Pricing.mkFinancials 4 150 600) ≠ 1.
Proof. repeat split; try reflexivity; vm_compute; congruence. Qed.

Lemma C7_rate_first_matching_key_witness :
  Date_parse_iso "2024-06-01" = Some 1717200000000 ∧
  Date_parse_iso "2024-06-05" = Some 1717545600000 ∧
  ∃ f, @Pricing.price iso_host "2024-06-01" "2024-06-05" "Family SUITE" = Some f ∧
       (∀ pre k r post,
          Pricing.ROOM_RATES = (pre ++ (k, r) :: post)%list →
          ci_substring k "Family SUITE" →
          (∀ k', k' ∈ Pricing.Object_keys pre → ¬ ci_substring k' "Family SUITE") →
          Pricing.rate f = r) ∧
       ((∀ k, k ∈ Pricing.Object_keys Pricing.ROOM_RATES → ¬ ci_substring k "Family SUITE") →
        Pricing.rate f = 150).
Proof.
  split; [reflexivity |]. split; [reflexivity |].
  apply (@C7_rate_first_matching_key iso_host "2024-06-01" "2024-06-05" "Family SUITE"
           1717200000000 1717545600000); reflexivity.
Defined.

Example price_same_day :
  @Pricing.price iso_host "2024-06-01" "2024-06-01" "Suite"
  = Some (Pricing.mkFinancials 1 450 450).
Proof. vm_compute. reflexivity. Qed.

Example price_four_nights :
  @Pricing.price iso_host "2024-06-01" "2024-06-05" "deluxe room please"
  = Some (Pricing.mkFinancials 4 250 1000).
Proof. vm_compute. reflexivity. Qed.

Example price_bad_date :
  @Pricing.price iso_host "not-a-date" "2024-06-05" "standard" = None.
Proof. vm_compute. reflexivity. Qed.

Example price_first_key_wins :
  @Pricing.price iso_host "2024-06-01" "2024-06-02" "Family SUITE"
  = Some (Pricing.mkFinancials 1 300 300).
Proof. vm_compute. reflexivity. Qed.

Example price_no_key_is_standard :
  @Pricing.price iso_host "2024-06-01" "2024-06-02" "penthouse"
  = Some (Pricing.mkFinancials 1 150 150).
Proof. vm_compute. reflexivity. Qed.

(** ** The booking store *)

Lemma spread_singleton (b : JsObj) (key : string) (v : JsVal) :
  spread b {[ key := v ]} = <[ key := v ]> b.
Proof. unfold spread. by rewrite insert_union_singleton_l. Qed.

(** The threaded [found] flag is the disjunction of the matches, and the
    list is mapped element by element. *)
Lemma cancel_map_spec (code : option JsVal) (all : list JsObj) (found : bool) :
  MockDatabase.cancel_map code all found =
    (map (λ b : JsObj, if decide (b !! "confirmation_code" = code)
                       then <[ "status" := JStr "cancelled" ]> b else b) all,
     found || existsb (λ b : JsObj, bool_decide (b !! "confirmation_code" = code)) all).
Proof.
  revert found. induction all as [|b rest IH]; intros found; simpl.
  - by rewrite orb_false_r.
  - destruct (decide (b !! "confirmation_code" = code)) as [Heq|Hne].
    + rewrite IH, spread_singleton. rewrite bool_decide_eq_true_2 by done.
      simpl. by rewrite orb_true_r.
    + rewrite IH. rewrite bool_decide_eq_false_2 by done. done.
Qed.

(** C10.  [cancelBooking code] marks as cancelled every stored booking
    whose confirmation code is [code], whoever's e-mail it carries, keeps
    every other field of those bookings and every other booking as they
    were, keeps the order and number of bookings, and answers [true]
    exactly when some booking matched. *)
Theorem C10_cancelBooking_marks_matches (code : string) (ls : MockDatabase.Storage) :
  ∃ found updated,
    MockDatabase.cancelBooking (Some (JStr code)) ls = (found, Some updated) ∧
    length updated = length (MockDatabase.load ls) ∧
    (∀ i (b : JsObj), MockDatabase.load ls !! i = Some b →
       ∃ b' : JsObj, updated !! i = Some b' ∧
         (b !! "confirmation_code" = Some (JStr code) →
            b' !! "status" = Some (JStr "cancelled") ∧
            ∀ key, key ≠ "status" → b' !! key = b !! key) ∧
         (b !! "confirmation_code" ≠ Some (JStr code) → b' = b)) ∧
    (found = true ↔
       ∃ b : JsObj, b ∈ MockDatabase.load ls ∧
                    b !! "confirmation_code" = Some (JStr code)).
Proof.
  unfold MockDatabase.cancelBooking. rewrite cancel_map_spec. simpl.
  eexists _, _. split; [reflexivity |]. split; [by rewrite length_map |]. split.
  - intros i b Hb. rewrite list_lookup_fmap, Hb. simpl. eexists. split; [reflexivity |].
    destruct (decide (b !! "confirmation_code" = Some (JStr code))) as [Heq|Hne].
    + split; [|done]. intros _. split; [by rewrite lookup_insert_eq |].
      intros key Hkey. by rewrite lookup_insert_ne.
    + split; [done |]. done.
  - rewrite existsb_exists. split.
    + intros (b & Hin & Hb). exists b. split; [by apply list_elem_of_In |].
      by apply bool_decide_eq_true in Hb.
    + intros (b & Hin & Hb). exists b. split; [by apply list_elem_of_In |].
      by apply bool_decide_eq_true.
Qed.

Example cancel_ignores_email :
  MockDatabase.cancelBooking (Some (JStr "OMNI-0042"))
    (Some [ {[ "email" := JStr "a@x.org"; "confirmation_code" := JStr "OMNI-0042";
               "status" := JStr "confirmed" ]};
            {[ "email" := JStr "b@y.org"; "confirmation_code" := JStr "OMNI-0042";
               "status" := JStr "confirmed" ]};
            {[ "email" := JStr "a@x.org"; "confirmation_code" := JStr "OMNI-7777";
               "status" := JStr "confirmed" ]} ])
  = (true,
     Some [ {[ "email" := JStr "a@x.org"; "confirmation_code" := JStr "OMNI-0042";
               "status" := JStr "cancelled" ]};
            {[ "email" := JStr "b@y.org"; "confirmation_code" := JStr "OMNI-0042";
               "status" := JStr "cancelled" ]};
            {[ "email" := JStr "a@x.org"; "confirmation_code" := JStr "OMNI-7777";
               "status" := JStr "confirmed" ]} ]).
Proof. reflexivity. Qed.

Example cancel_unknown_code :
  MockDatabase.cancelBooking (Some (JStr "OMNI-0000"))
    (Some [ {[ "confirmation_code" := JStr "OMNI-0042"; "status" := JStr "confirmed" ]} ])
  = (false,
     Some [ {[ "confirmation_code" := JStr "OMNI-0042"; "status" := JStr "confirmed" ]} ]).
Proof. reflexivity. Qed.

(** ** Tool dispatch *)

Section dispatch.
Context `{Host}.

Lemma richer_handle_call_channel (email : string) (call : FunctionCall) (st : App) :
  channel (Richer.handle_call email call st).2 = channel st ∧
  playback (Richer.handle_call email call st).2 = playback st.
Proof.
  unfold Richer.handle_call.
  case_tool_name; simpl; repeat case_match; done.
Qed.

Lemma reduced_handle_call_channel (call : FunctionCall) (st : App) :
  channel (Reduced.handle_call call st).2 = channel st ∧
  playback (Reduced.handle_call call st).2 = playback st.
Proof.
  unfold Reduced.handle_call.
  case_tool_name; simpl; repeat case_match; done.
Qed.

(** The loop of the richer variant extends [responses] by one entry per
    call, in call order, and leaves the channel alone. *)
Lemma richer_handle_calls_spec (email : string) (calls : list FunctionCall) :
  ∀ (responses : list FunctionResponse) (st : App),
    ∃ new, (Richer.handle_calls email calls responses st).1 = responses ++ new ∧
           answers calls new ∧
           channel (Richer.handle_calls email calls responses st).2 = channel st ∧
           playback (Richer.handle_calls email calls responses st).2 = playback st.
Proof.
  induction calls as [|call rest IH]; intros responses st; simpl.
  - exists []. rewrite app_nil_r. repeat split; constructor.
  - pose proof (richer_handle_call_channel email call st) as [Hch Hpb].
    destruct (Richer.handle_call email call st) as [result st1]. simpl in *.
    destruct (IH (responses ++ [mkResponse (call_id call) (call_name call) result]) st1)
      as (new & Hnew & Hans & Hch' & Hpb').
    exists (mkResponse (call_id call) (call_name call) result :: new).
    rewrite Hnew, <- app_assoc. simpl. repeat split; [|congruence..].
    by constructor.
Qed.

(** The loop of the reduced variant queues one single-response send per
    call, in call order. *)
Lemma reduced_handle_calls_spec (calls : list FunctionCall) :
  ∀ st : App,
    ∃ new, microtasks (channel (Reduced.handle_calls calls st)) =
             microtasks (channel st) ++ map (λ r, SendToolResponse [r]) new ∧
           sent (channel (Reduced.handle_calls calls st)) = sent (channel st) ∧
           answers calls new ∧
           playback (Reduced.handle_calls calls st) = playback st.
Proof.
  induction calls as [|call rest IH]; intros st; simpl.
  - exists []. simpl. rewrite app_nil_r. repeat split; constructor.
  - pose proof (reduced_handle_call_channel call st) as [Hch Hpb].
    destruct (Reduced.handle_call call st) as [result st1]. simpl in *.
    destruct (IH (then_ (SendToolResponse [mkResponse (call_id call) (call_name call) result])
                        st1)) as (new & Hnew & Hsent & Hans & Hpb').
    exists (mkResponse (call_id call) (call_name call) result :: new).
    rewrite Hnew, Hsent, Hpb'. simpl. rewrite Hch, <- app_assoc. simpl.
    repeat split; [|done]. by constructor.
Qed.

(** The audio part of either handler does not touch the channel. *)
Lemma richer_onmessage_sent (email : string) (message : LiveServerMessage)
    (currentTime : Z) (st : App) (calls : list FunctionCall) :
  toolCall message = Some calls →
  ∃ responses,
    channel (Richer.onmessage email message currentTime st) =
      mkChannel (microtasks (channel st) ++ [SendToolResponse responses]) (sent (channel st)) ∧
    answers calls responses.
Proof.
  intros Htc. unfold Richer.onmessage. rewrite Htc.
  match goal with |- context [Richer.handle_calls email calls [] ?s] => set (st1 := s) end.
  assert (Hst1 : channel st1 = channel st).
  { subst st1. destruct (inlineData message) as [data|]; [|done].
    by destruct (negb _ && _). }
  destruct (richer_handle_calls_spec email calls [] st1) as (new & Hnew & Hans & Hch & _).
  destruct (Richer.handle_calls email calls [] st1) as [responses st2]. simpl in *.
  exists responses. subst responses. split; [|done].
  unfold then_. simpl. by rewrite Hch, Hst1.
Qed.










(** C3 (as amended).  When pricing fails, the richer
    [check_availability] handler answers [unavailable] with a message,
    and still merges the call into the draft: the three priced fields
    become 0, every argument of the call overrides the draft's field of
    that name, and the remaining draft fields stay.  The finalized
    booking, the store and the rest of the state are untouched. *)
Theorem C3_unpriceable_answer_and_draft (email : string) (call : FunctionCall) (st : App) :
  call_name call = "check_availability" →
  Pricing.calculateStayCost (call_args call !! "check_in_date")
                            (call_args call !! "check_out_date")
                            (call_args call !! "room_type") = None →
  ∃ st',
    Richer.handle_call email call st =
      (PObj {[ "status" := JStr "unavailable";
               "message" := JStr "Invalid dates or room type." ]}, st') ∧
    (∀ key,
       currentBooking (booking st') !! key =
         if bool_decide (key ∈ ["price_per_night"; "total_cost"; "total_nights"])
         then Some (JNum 0)
         else match call_args call !! key with
              | Some v => Some v
              | None => currentBooking (booking st) !! key
              end) ∧
    finalizedBooking (booking st') = finalizedBooking (booking st) ∧
    localStorage (booking st') = localStorage (booking st) ∧
    (conn st', capture st', playback st', channel st') =
      (conn st, capture st, playback st, channel st).
Proof.
  intros Hname Hnone. unfold Richer.handle_call. rewrite Hname, Hnone. simpl.
  clear Hnone. eexists. split; [reflexivity |]. simpl. split; [|done].
  intros key. unfold spread. rewrite !lookup_union.
  assert (Hin : ∀ k : string, k ∈ ["price_per_night"; "total_cost"; "total_nights"] ↔
                 k = "price_per_night" ∨ k = "total_cost" ∨ k = "total_nights").
  { intros k. rewrite !elem_of_cons, elem_of_nil. tauto. }
  destruct (decide (key = "price_per_night")) as [->|H1].
  { rewrite bool_decide_eq_true_2 by (apply Hin; auto). rewrite lookup_insert_eq.
    by destruct (call_args call !! _), (currentBooking (booking st) !! _). }
  destruct (decide (key = "total_cost")) as [->|H2].
  { rewrite bool_decide_eq_true_2 by (apply Hin; auto).
    rewrite lookup_insert_ne, lookup_insert_eq by done.
    by destruct (call_args call !! _), (currentBooking (booking st) !! _). }
  destruct (decide (key = "total_nights")) as [->|H3].
  { rewrite bool_decide_eq_true_2 by (apply Hin; auto).
    rewrite !lookup_insert_ne, lookup_singleton_eq by done.
    by destruct (call_args call !! _), (currentBooking (booking st) !! _). }
  rewrite bool_decide_eq_false_2 by (rewrite Hin; tauto).
  rewrite !lookup_insert_ne, lookup_singleton_ne by done.
  by destruct (call_args call !! key), (currentBooking (booking st) !! key).
Qed.

(** C5 (as amended).  A call whose name is outside the tool vocabulary
    is not dropped: the richer dispatcher changes nothing and answers
    with the empty object under the id and the name of the call. *)
Theorem C5_unknown_tool_empty_result (email : string) (call : FunctionCall) (st : App)
    (currentTime : Z) :
  call_name call ∉ tool_vocabulary →
  microtasks (channel st) = [] →
  Richer.handle_call email call st = (PObj ∅, st) ∧
  drain (Richer.onmessage email (mkMessage None false (Some [call])) currentTime st) =
    with_channel
      (mkChannel [] (sent (channel st) ++
                     [SendToolResponse [mkResponse (call_id call) (call_name call) (PObj ∅)]]))
      st.
Proof.
  intros Hname Hmt.
  assert (Hcall : Richer.handle_call email call st = (PObj ∅, st)).
  { unfold Richer.handle_call, tool_vocabulary in *.
    case_tool_name; try done; exfalso; apply Hname;
      rewrite !elem_of_cons; tauto. }
  split; [done |].
  unfold Richer.onmessage. simpl. rewrite Hcall. simpl.
  unfold drain, then_, with_channel. simpl. by rewrite Hmt.
Qed.

End dispatch.



Lemma C3_unpriceable_answer_and_draft_witness :
  call_name demo_check_bad = "check_availability" ∧
  @Pricing.calculateStayCost iso_host
     (call_args demo_check_bad !! "check_in_date")
     (call_args demo_check_bad !! "check_out_date")
     (call_args demo_check_bad !! "room_type") = None ∧
  ∃ st',
    @Richer.handle_call iso_host "ada@example.org" demo_check_bad demo_state =
      (PObj {[ "status" := JStr "unavailable";
               "message" := JStr "Invalid dates or room type." ]}, st') ∧
    (∀ key,
       currentBooking (booking st') !! key =
         if bool_decide (key ∈ ["price_per_night"; "total_cost"; "total_nights"])
         then Some (JNum 0)
         else match call_args demo_check_bad !! key with
              | Some v => Some v
              | None => currentBooking (booking demo_state) !! key
              end) ∧
    finalizedBooking (booking st') = finalizedBooking (booking demo_state) ∧
    localStorage (booking st') = localStorage (booking demo_state) ∧
    (conn st', capture st', playback st', channel st') =
      (conn demo_state, capture demo_state, playback demo_state, channel demo_state).
Proof.
  split; [reflexivity |]. split; [reflexivity |].
  apply (@C3_unpriceable_answer_and_draft iso_host "ada@example.org" demo_check_bad demo_state);
    reflexivity.
Defined.

(** C3 as stated fails: a [check_availability] call that cannot be
    priced is answered [unavailable], and the draft, empty before the
    call, holds the requested room type and a zero total afterwards. *)
Lemma C3_draft_changes_counterexample :
  @Pricing.calculateStayCost iso_host
     (call_args demo_check_bad !! "check_in_date")
     (call_args demo_check_bad !! "check_out_date")
     (call_args demo_check_bad !! "room_type") = None ∧
  (@Richer.handle_call iso_host "ada@example.org" demo_check_bad demo_state).1 =
    PObj {[ "status" := JStr "unavailable"; "message" := JStr "Invalid dates or room type." ]} ∧
  currentBooking (booking demo_state) = ∅ ∧
  currentBooking
    (booking (@Richer.handle_call iso_host "ada@example.org" demo_check_bad demo_state).2) =
    {[ "room_type" := JStr "suite"; "check_in_date" := JStr "not-a-date";
       "check_out_date" := JStr "2024-06-05"; "price_per_night" := JNum 0;
       "total_cost" := JNum 0; "total_nights" := JNum 0 ]} ∧
  currentBooking
    (booking (@Richer.handle_call iso_host "ada@example.org" demo_check_bad demo_state).2) ≠
    currentBooking (booking demo_state).
Proof.
  split; [reflexivity |]. split; [reflexivity |]. split; [reflexivity |].
  split; [reflexivity |].
  intros Heq. apply (f_equal (λ m : JsObj, (m !! "total_cost"))) in Heq.
  discriminate Heq.
Qed.

(** The reduced variant answers the same call [available]. *)
Example reduced_unpriceable_is_available :
  (@Reduced.handle_call iso_host demo_check_bad demo_state).1 =
    PObj {[ "status" := JStr "available" ]}.
Proof. reflexivity. Qed.

Lemma C5_unknown_tool_empty_result_witness :
  (call_name demo_unknown ∉ tool_vocabulary) ∧
  microtasks (channel demo_state) = [] ∧
  @Richer.handle_call iso_host "ada@example.org" demo_unknown demo_state = (PObj ∅, demo_state) ∧
  drain (@Richer.onmessage iso_host "ada@example.org"
           (mkMessage None false (Some [demo_unknown])) 0 demo_state) =
    with_channel
      (mkChannel [] (sent (channel demo_state) ++
                     [SendToolResponse
                        [mkResponse (call_id demo_unknown) (call_name demo_unknown) (PObj ∅)]]))
      demo_state.
Proof.
  assert (Hname : call_name demo_unknown ∉ tool_vocabulary).
  { by apply (bool_decide_unpack _). }
  split; [exact Hname |]. split; [reflexivity |].
  apply (@C5_unknown_tool_empty_result iso_host "ada@example.org" demo_unknown demo_state 0);
    [exact Hname | reflexivity].
Defined.

(** C5 as stated fails: the result sent for an unknown tool name is the
    empty object, which carries no error status. *)
Lemma C5_unknown_tool_counterexample :
  (call_name demo_unknown ∉ tool_vocabulary) ∧
  (@Richer.handle_call iso_host "ada@example.org" demo_unknown demo_state).1 = PObj ∅ ∧
  ¬ is_error_result
      (@Richer.handle_call iso_host "ada@example.org" demo_unknown demo_state).1.
Proof.
  split; [by apply (bool_decide_unpack _) |]. split; [reflexivity |].
  simpl. by rewrite lookup_empty.
Qed.

Example cancel_unknown_is_error_result :
  is_error_result
    (@Richer.handle_call iso_host "ada@example.org"
       (mkCall "call-4" "cancel_booking" {[ "confirmation_code" := JStr "OMNI-0000" ]})
       demo_state).1.
Proof. reflexivity. Qed.

(** ** Playback scheduling *)

Section playback.
Context `{Host}.

Lemma duration_nonneg (b : AudioBuffer) : 0 ≤ duration b.
Proof. unfold duration. lia. Qed.

(** One audio-only message, richer variant, output context in place. *)
Lemma richer_enqueue_one (email data : string) (currentTime : Z) (st : App) :
  data ≠ "" →
  outputAudioContext (playback st) = true →
  Richer.onmessage email (audio_message data) currentTime st =
    with_playback
      (mkPlayback true
         (Z.max (nextStartTime (playback st)) currentTime + duration (decodeAudioData data))
         (nodes (playback st) ++
            [mkNode (decodeAudioData data) (Z.max (nextStartTime (playback st)) currentTime) false])
         ({[ length (nodes (playback st)) ]} ∪ scheduledSources (playback st))) st.
Proof.
  intros Hdata Hctx. unfold Richer.onmessage. simpl.
  destruct (String.eqb_spec data "") as [?|_]; [done |]. rewrite Hctx. done.
Qed.

(** One audio-only message, reduced variant. *)
Lemma reduced_enqueue_one (data : string) (currentTime : Z) (st : App) :
  data ≠ "" →
  Reduced.onmessage (audio_message data) currentTime st =
    with_playback
      (mkPlayback true
         (Z.max (nextStartTime (playback st)) currentTime + duration (decodeAudioData data))
         (nodes (playback st) ++
            [mkNode (decodeAudioData data) (Z.max (nextStartTime (playback st)) currentTime) false])
         ({[ length (nodes (playback st)) ]} ∪ scheduledSources (playback st))) st.
Proof.
  intros Hdata. unfold Reduced.onmessage. simpl.
  destruct (String.eqb_spec data "") as [?|_]; done.
Qed.

(** A run of audio-only messages appends the schedule of the
    specification to the nodes, and the clock ends at the end of the last
    node. *)
Lemma richer_enqueue_all_sched (email : string) (chunks : list Arrival) :
  ∀ st : App,
    outputAudioContext (playback st) = true →
    Forall (λ c : Arrival, c.1 ≠ "") chunks →
    nodes (playback (richer_enqueue_all email chunks st)) =
      nodes (playback st) ++ sched (nextStartTime (playback st)) chunks ∧
    outputAudioContext (playback (richer_enqueue_all email chunks st)) = true.
Proof.
  unfold richer_enqueue_all.
  induction chunks as [|[data now] rest IH]; intros st Hctx Hne; simpl.
  - by rewrite app_nil_r.
  - apply Forall_cons in Hne as [Hd Hrest]. simpl in Hd.
    rewrite richer_enqueue_one by done.
    match goal with |- context [foldl _ ?s rest] => destruct (IH s) as [-> ->] end;
      [done | done |]. simpl. by rewrite <- app_assoc.
Qed.

Lemma reduced_enqueue_all_sched (chunks : list Arrival) :
  ∀ st : App,
    Forall (λ c : Arrival, c.1 ≠ "") chunks →
    nodes (playback (reduced_enqueue_all chunks st)) =
      nodes (playback st) ++ sched (nextStartTime (playback st)) chunks.
Proof.
  unfold reduced_enqueue_all.
  induction chunks as [|[data now] rest IH]; intros st Hne; simpl.
  - by rewrite app_nil_r.
  - apply Forall_cons in Hne as [Hd Hrest]. simpl in Hd.
    rewrite reduced_enqueue_one by done.
    match goal with |- context [foldl _ ?s rest] => rewrite (IH s) by done end.
    simpl. by rewrite <- app_assoc.
Qed.

Lemma sched_length (chunks : list Arrival) (clock : Z) :
  length (sched clock chunks) = length chunks.
Proof. revert clock. induction chunks; intros clock; simpl; [done | by rewrite IHchunks]. Qed.

Lemma sched_duration (chunks : list Arrival) (clock : Z) :
  Forall2 (λ (c : Arrival) n, duration (node_buffer n) = duration (decodeAudioData c.1))
          chunks (sched clock chunks).
Proof. revert clock. induction chunks; intros clock; simpl; constructor; auto. Qed.

(** No node of a schedule starts before the clock it was computed from. *)
Lemma sched_start_ge (chunks : list Arrival) :
  ∀ clock j nj, sched clock chunks !! j = Some nj → clock ≤ node_start nj.
Proof.
  induction chunks as [|c rest IH]; intros clock j nj Hj; simpl in Hj; [done |].
  destruct j as [|j]; simpl in Hj.
  - injection Hj as <-. simpl. lia.
  - apply IH in Hj. pose proof (duration_nonneg (decodeAudioData c.1)). lia.
Qed.

(** A later node starts no earlier than an earlier node ends. *)
Lemma sched_no_overlap (chunks : list Arrival) :
  ∀ clock i j ni nj,
    (i < j)%nat →
    sched clock chunks !! i = Some ni →
    sched clock chunks !! j = Some nj →
    node_end ni ≤ node_start nj.
Proof.
  induction chunks as [|c rest IH]; intros clock i j ni nj Hij Hi Hj; simpl in *; [done |].
  destruct j as [|j]; [lia |]. simpl in Hj. destruct i as [|i]; simpl in Hi.
  - injection Hi as <-. apply sched_start_ge in Hj. by unfold node_end.
  - eapply (IH _ i j); [lia | done | done].
Qed.

(** When every chunk arrives in time, consecutive nodes abut. *)
Lemma sched_contiguous (chunks : list Arrival) :
  ∀ clock,
    arrives_in_time (sched clock chunks) chunks →
    ∀ i n n', sched clock chunks !! i = Some n →
              sched clock chunks !! S i = Some n' →
              node_start n' = node_end n.
Proof.
  induction chunks as [|c rest IH]; intros clock Htime i n n' Hi Hi'; simpl in *; [done |].
  destruct i as [|i]; simpl in Hi.
  - injection Hi as <-. destruct rest as [|c' rest']; simpl in Hi'; [done |].
    injection Hi' as <-. unfold node_end. simpl.
    pose proof (Htime 0%nat _ c' eq_refl eq_refl) as H0.
    unfold node_end in H0. simpl in H0. lia.
  - assert (Htime' : arrives_in_time
                       (sched (Z.max clock c.2 + duration (decodeAudioData c.1)) rest) rest).
    { intros k nk ck Hk Hck. by apply (Htime (S k) nk ck). }
    exact (IH _ Htime' i n n' Hi Hi').
Qed.

(** When every chunk arrives in time, the last node ends at the start of
    the first node plus the sum of the durations. *)
Lemma sched_span (chunks : list Arrival) :
  ∀ clock first last_,
    arrives_in_time (sched clock chunks) chunks →
    head (sched clock chunks) = Some first →
    last (sched clock chunks) = Some last_ →
    node_end last_ - node_start first = total_duration chunks.
Proof.
  induction chunks as [|c rest IH]; intros clock first last_ Htime Hfirst Hlast;
    simpl in *; [done |].
  injection Hfirst as <-. simpl.
  destruct rest as [|c' rest'].
  - simpl in *. injection Hlast as <-. unfold node_end. simpl. lia.
  - set (clock' := Z.max clock c.2 + duration (decodeAudioData c.1)) in *.
    assert (Hc' : c'.2 ≤ clock').
    { pose proof (Htime 0%nat _ c' eq_refl eq_refl) as H0.
      unfold node_end in H0. simpl in H0. subst clock'. lia. }
    specialize (IH clock' (mkNode (decodeAudioData c'.1) (Z.max clock' c'.2) false) last_).
    rewrite last_cons in Hlast.
    destruct (last (sched clock' (c' :: rest'))) as [l|] eqn:Hl.
    2:{ simpl in Hl. rewrite last_cons in Hl. by destruct (last _). }
    injection Hlast as ->.
    assert (Htime' : arrives_in_time (sched clock' (c' :: rest')) (c' :: rest')).
    { intros k nk ck Hk Hck. by apply (Htime (S k) nk ck). }
    rewrite <- (IH Htime' eq_refl eq_refl). unfold node_end. simpl. lia.
Qed.

(** C4 (as amended).  A run of [N] audio chunks with no interruption
    appends [N] nodes, one per chunk and of its duration, in both
    variants alike.  A later node never starts before an earlier one
    ends, and start times never decrease.  When each chunk arrives no
    later than the end of its predecessor's node, consecutive nodes abut
    and the span from the first start to the last end is the sum of the
    durations. *)
Theorem C4_schedule_no_overlap_contiguous_in_time
    (email : string) (chunks : list Arrival) (st : App) :
  outputAudioContext (playback st) = true →
  Forall (λ c : Arrival, c.1 ≠ "") chunks →
  ∃ new,
    nodes (playback (richer_enqueue_all email chunks st)) = nodes (playback st) ++ new ∧
    nodes (playback (reduced_enqueue_all chunks st)) = nodes (playback st) ++ new ∧
    length new = length chunks ∧
    Forall2 (λ (c : Arrival) n, duration (node_buffer n) = duration (decodeAudioData c.1))
            chunks new ∧
    (∀ i j ni nj, (i < j)%nat → new !! i = Some ni → new !! j = Some nj →
                  node_end ni ≤ node_start nj ∧ node_start ni ≤ node_start nj) ∧
    (arrives_in_time new chunks →
       (∀ i n n', new !! i = Some n → new !! S i = Some n' → node_start n' = node_end n) ∧
       (∀ first last_, head new = Some first → last new = Some last_ →
                       node_end last_ - node_start first = total_duration chunks)).
Proof.
  intros Hctx Hne. exists (sched (nextStartTime (playback st)) chunks).
  split; [by apply richer_enqueue_all_sched |].
  split; [by apply reduced_enqueue_all_sched |].
  split; [apply sched_length |]. split; [apply sched_duration |]. split.
  - intros i j ni nj Hij Hi Hj.
    pose proof (sched_no_overlap _ _ _ _ _ _ Hij Hi Hj) as Hno.
    pose proof (duration_nonneg (node_buffer ni)). unfold node_end in *. lia.
  - intros Htime. split.
    + by apply sched_contiguous.
    + intros first last_. by apply sched_span.
Qed.

End playback.

Lemma C4_schedule_no_overlap_contiguous_in_time_witness :
  outputAudioContext (playback demo_ready) = true ∧
  Forall (λ c : Arrival, c.1 ≠ "") [("abcd", 0); ("ef", 3)] ∧
  ∃ new,
    nodes (playback (@richer_enqueue_all iso_host "ada@example.org"
                       [("abcd", 0); ("ef", 3)] demo_ready)) =
      nodes (playback demo_ready) ++ new ∧
    nodes (playback (@reduced_enqueue_all iso_host [("abcd", 0); ("ef", 3)] demo_ready)) =
      nodes (playback demo_ready) ++ new ∧
    length new = length [("abcd", 0); ("ef", 3)] ∧
    Forall2 (λ (c : Arrival) n,
               duration (node_buffer n) = duration (@decodeAudioData iso_host c.1))
            [("abcd", 0); ("ef", 3)] new ∧
    (∀ i j ni nj, (i < j)%nat → new !! i = Some ni → new !! j = Some nj →
                  node_end ni ≤ node_start nj ∧ node_start ni ≤ node_start nj) ∧
    (arrives_in_time new [("abcd", 0); ("ef", 3)] →
       (∀ i n n', new !! i = Some n → new !! S i = Some n' → node_start n' = node_end n) ∧
       (∀ first last_, head new = Some first → last new = Some last_ →
                       node_end last_ - node_start first =
                         @total_duration iso_host [("abcd", 0); ("ef", 3)])).
Proof.
  assert (Hne : Forall (λ c : Arrival, c.1 ≠ "") [("abcd", 0); ("ef", 3)]).
  { repeat constructor; discriminate. }
  split; [reflexivity |]. split; [exact Hne |].
  apply (@C4_schedule_no_overlap_contiguous_in_time iso_host "ada@example.org"
           [("abcd", 0); ("ef", 3)] demo_ready); [reflexivity | exact Hne].
Defined.

Example schedule_in_time :
  nodes (playback (@richer_enqueue_all iso_host "ada@example.org"
                     [("abcd", 0); ("ef", 3)] demo_ready)) =
    [ mkNode (mkAudioBuffer [0; 0; 0; 0]) 0 false; mkNode (mkAudioBuffer [0; 0]) 4 false ].
Proof. reflexivity. Qed.

(** C4 as stated fails when a chunk arrives after its predecessor has
    finished: two chunks of one frame each, arriving at 0 and at 5, are
    scheduled at 0 and at 5; they do not abut, and the span is 6, not 2. *)
Lemma C4_late_chunk_counterexample :
  nodes (playback (@richer_enqueue_all iso_host "ada@example.org"
                     [("a", 0); ("b", 5)] demo_ready)) =
    [ mkNode (mkAudioBuffer [0]) 0 false; mkNode (mkAudioBuffer [0]) 5 false ] ∧
  nodes (playback (@reduced_enqueue_all iso_host [("a", 0); ("b", 5)] demo_ready)) =
    [ mkNode (mkAudioBuffer [0]) 0 false; mkNode (mkAudioBuffer [0]) 5 false ] ∧
  node_end (mkNode (mkAudioBuffer [0]) 0 false) = 1 ∧
  node_start (mkNode (mkAudioBuffer [0]) 5 false) ≠ node_end (mkNode (mkAudioBuffer [0]) 0 false) ∧
  @total_duration iso_host [("a", 0); ("b", 5)] = 2 ∧
  node_end (mkNode (mkAudioBuffer [0]) 5 false) - node_start (mkNode (mkAudioBuffer [0]) 0 false)
    ≠ @total_duration iso_host [("a", 0); ("b", 5)].
Proof. repeat split; try reflexivity; vm_compute; discriminate. Qed.

(** *** Interruption *)

Section interruption.
Context `{Host}.

Lemma stop_all_lookup (set : gset nat) (ns : list SourceNode) (i : nat) :
  stop_all set ns !! i =
    (λ n, if decide (i ∈ set) then node_stop n else n) <$> ns !! i.
Proof. unfold stop_all. by rewrite list_lookup_imap. Qed.

(** The reduced handler on an interruption: every node of the scheduled
    set is stopped, the set is emptied and the clock is reset, before
    anything else in the message is looked at. *)
Lemma reduced_interrupt_flushes (message : LiveServerMessage) (currentTime : Z) (st : App) :
  interrupted message = true →
  inlineData message = None →
  playback (Reduced.onmessage message currentTime st) =
    mkPlayback (outputAudioContext (playback st)) 0
               (stop_all (scheduledSources (playback st)) (nodes (playback st))) ∅ ∧
  ∀ i n, i ∈ scheduledSources (playback st) →
         nodes (playback st) !! i = Some n →
         nodes (playback (Reduced.onmessage message currentTime st)) !! i = Some (node_stop n).
Proof.
  intros Hint Hno.
  assert (Hpb : playback (Reduced.onmessage message currentTime st) =
                mkPlayback (outputAudioContext (playback st)) 0
                  (stop_all (scheduledSources (playback st)) (nodes (playback st))) ∅).
  { unfold Reduced.onmessage. rewrite Hint, Hno.
    destruct (toolCall message) as [calls|]; [|done].
    by destruct (reduced_handle_calls_spec calls
                   (with_playback
                      (mkPlayback (outputAudioContext (playback st)) 0
                         (stop_all (scheduledSources (playback st)) (nodes (playback st))) ∅)
                      st)) as (_ & _ & _ & _ & ->). }
  split; [done |]. intros i n Hin Hn. rewrite Hpb. simpl.
  rewrite stop_all_lookup, Hn. simpl. by rewrite decide_True.
Qed.

(** The richer handler never reads the interruption flag. *)
Lemma richer_onmessage_ignores_interrupted
    (email : string) (audio : option string) (flag : bool)
    (calls : option (list FunctionCall)) (currentTime : Z) (st : App) :
  Richer.onmessage email (mkMessage audio flag calls) currentTime st =
  Richer.onmessage email (mkMessage audio false calls) currentTime st.
Proof. reflexivity. Qed.

Lemma richer_interrupt_message_noop (email : string) (currentTime : Z) (st : App) :
  Richer.onmessage email interrupt_message currentTime st = st.
Proof. by destruct st. Qed.

End interruption.

(** C2 on the richer variant.  One chunk of four frames is scheduled at
    time 0; an interruption arrives at time 1, while the chunk plays.
    The reduced handler stops the node, empties the set and resets the
    clock; the richer handler leaves the node running, the set as it was
    and the clock at 4. *)
Theorem C2_richer_interruption_leaves_audio_playing :
  playback (@richer_enqueue_all iso_host "ada@example.org" [("abcd", 0)] demo_ready) =
    mkPlayback true 4 [mkNode (mkAudioBuffer [0; 0; 0; 0]) 0 false] {[ 0%nat ]} ∧
  playback (drain (@Richer.onmessage iso_host "ada@example.org" interrupt_message 1
                     (@richer_enqueue_all iso_host "ada@example.org" [("abcd", 0)] demo_ready))) =
    mkPlayback true 4 [mkNode (mkAudioBuffer [0; 0; 0; 0]) 0 false] {[ 0%nat ]} ∧
  playback (drain (@Reduced.onmessage iso_host interrupt_message 1
                     (@reduced_enqueue_all iso_host [("abcd", 0)] demo_ready))) =
    mkPlayback true 0 [mkNode (mkAudioBuffer [0; 0; 0; 0]) 0 true] ∅.
Proof.
  split; [reflexivity |]. split; reflexivity.
Qed.

(** ** Capture and mute *)

Section capture.
Context `{Host}.





(** The reduced variant gates the send on the mute flag, and sets the
    meter to the raw energy of every frame. *)
Lemma reduced_frame (inputData : list Qc) (st : App) :
  microtasks (channel st) = [] →
  audioLevel (capture (drain (Reduced.onaudioprocess inputData st))) = rms_of inputData ∧
  sent (channel (drain (Reduced.onaudioprocess inputData st))) =
    if isMuted (capture st) then sent (channel st)
    else sent (channel st) ++ [SendRealtimeInput (createPcmBlob inputData)].
Proof.
  intros Hmt. unfold Reduced.onaudioprocess.
  destruct (isMuted (capture st)); simpl; rewrite Hmt; [by rewrite app_nil_r | done].
Qed.


End capture.



(** ** The connection state machine *)

Section machine.
Context `{Host}.

Lemma richer_handle_calls_conn (email : string) (calls : list FunctionCall) :
  ∀ (responses : list FunctionResponse) (st : App),
    conn (Richer.handle_calls email calls responses st).2 = conn st.
Proof.
  induction calls as [|call rest IH]; intros responses st; simpl; [done |].
  destruct (Richer.handle_call email call st) as [result st1] eqn:Hcall.
  rewrite IH. replace st1 with (Richer.handle_call email call st).2 by by rewrite Hcall.
  unfold Richer.handle_call. case_tool_name; simpl; repeat case_match; done.
Qed.

Lemma richer_onmessage_conn (email : string) (message : LiveServerMessage)
    (currentTime : Z) (st : App) :
  conn (Richer.onmessage email message currentTime st) = conn st.
Proof.
  unfold Richer.onmessage.
  match goal with |- context [match toolCall message with _ => _ end] =>
    destruct (toolCall message) as [calls|] end.
  - match goal with |- context [Richer.handle_calls email calls [] ?s] =>
      pose proof (richer_handle_calls_conn email calls [] s) as Hc;
      destruct (Richer.handle_calls email calls [] s) as [rs st2] end.
    simpl in *. rewrite Hc. repeat case_match; done.
  - repeat case_match; done.
Qed.

Lemma step_conn_effect (e : Richer.Event) (st st' : App) :
  Richer.step e st = Some st' → conn_effect st st' e.
Proof.
  unfold Richer.step. intros Hstep.
  apply fmap_Some in Hstep as (st1 & Hst1 & ->).
  destruct e as [apiKey throws| | |sid|sid message currentTime|sid|sid|tracks| |inputData|source];
    simpl in Hst1.
  - destruct (Richer.start_rendered st); [|done]. injection Hst1 as <-.
    unfold Richer.connectToGemini.
    destruct (user st); [|by apply eff_start_noop].
    destruct apiKey; simpl; [|by apply eff_start_noop].
    destruct throws; simpl; [by apply eff_start_throws | by apply eff_start_session].
  - destruct (Richer.start_rendered st); [done |]. injection Hst1 as <-.
    unfold Richer.endCall. destruct (sessionRef (conn st)); [by apply eff_end | by apply eff_end_noop].
  - destruct (Richer.start_rendered st); [done |]. injection Hst1 as <-.
    apply eff_other; [done |]. unfold Richer.toggleMute. by destruct (mediaStream _).
  - destruct (sessions (conn st) !! sid) as [[]|] eqn:Hsid; try done. injection Hst1 as <-.
    by apply eff_open.
  - destruct (sessions (conn st) !! sid) as [[]|] eqn:Hsid; try done. injection Hst1 as <-.
    apply eff_other; [done |]. simpl. apply richer_onmessage_conn.
  - destruct (sessions (conn st) !! sid) as [[]|] eqn:Hsid; try done; injection Hst1 as <-;
      by apply eff_error.
  - destruct (sessions (conn st) !! sid) as [[]|] eqn:Hsid; try done; injection Hst1 as <-;
      by apply eff_close.
  - destruct (bool_decide _); [done |]. injection Hst1 as <-. by apply eff_other.
  - destruct (bool_decide _); [done |]. injection Hst1 as <-. by apply eff_mic_denied.
  - destruct (processor _); [|done]. injection Hst1 as <-. apply eff_other; [done |].
    unfold Richer.onaudioprocess. simpl. by destruct (inputClosed _).
  - destruct (bool_decide _); [|done]. injection Hst1 as <-. by apply eff_other.
Qed.

(** Every turn ends with nothing queued. *)
Lemma step_microtasks_empty (e : Richer.Event) (st st' : App) :
  Richer.step e st = Some st' → microtasks (channel st') = [].
Proof.
  unfold Richer.step. intros Hstep.
  by apply fmap_Some in Hstep as (st1 & Hst1 & ->).
Qed.

(** The only way into [CONNECTED] is the open event of a pending session. *)
Lemma step_into_connected (e : Richer.Event) (st st' : App) :
  Richer.step e st = Some st' →
  state_of st ≠ CONNECTED →
  state_of st' = CONNECTED →
  ∃ sid, e = Richer.RemoteOpen sid ∧ sessions (conn st) !! sid = Some Pending.
Proof.
  intros Hstep Hnot Hconn.
  destruct (step_conn_effect _ _ _ Hstep); unfold state_of in *; try congruence.
  by eexists.
Qed.

(** An automatic turn creates no session and makes none pending. *)
Lemma step_automatic_pending (e : Richer.Event) (st st' : App) :
  Richer.step e st = Some st' →
  Richer.user_initiated e = false →
  no_pending st → no_pending st'.
Proof.
  intros Hstep Hauto Hnp. unfold no_pending in *.
  assert (Hins : ∀ sid ph, ph ≠ Pending → Pending ∉ <[sid := ph]> (sessions (conn st))).
  { intros sid ph Hph Hin. apply list_elem_of_lookup in Hin as [i Hi].
    destruct (decide (i = sid)) as [->|Hne].
    - destruct (decide (sid < length (sessions (conn st)))%nat).
      + rewrite list_lookup_insert_eq in Hi by done. congruence.
      + rewrite list_insert_ge in Hi by lia. apply Hnp. by eapply list_elem_of_lookup_2.
    - rewrite list_lookup_insert_ne in Hi by done. apply Hnp. by eapply list_elem_of_lookup_2. }
  destruct (step_conn_effect _ _ _ Hstep) as
    [| | | | | sid Hsid _ Hs | sid _ Hs | sid _ Hs | _ Hs | e _ Hc]; try done.
  - exfalso. apply Hnp. by eapply list_elem_of_lookup_2.
  - rewrite Hs. by apply Hins.
  - rewrite Hs. by apply Hins.
  - by rewrite Hs.
  - by rewrite Hc.
Qed.

(** An automatic turn creates no session. *)
Lemma step_automatic_sessions (e : Richer.Event) (st st' : App) :
  Richer.step e st = Some st' →
  Richer.user_initiated e = false →
  length (sessions (conn st')) = length (sessions (conn st)).
Proof.
  intros Hstep Hauto.
  destruct (step_conn_effect _ _ _ Hstep) as
    [| | | | | sid _ _ Hs | sid _ Hs | sid _ Hs | _ Hs | e _ Hc]; try done.
  - by rewrite Hs, length_insert.
  - by rewrite Hs, length_insert.
  - by rewrite Hs, length_insert.
  - by rewrite Hs.
  - by rewrite Hc.
Qed.

Lemma run_head (es : list Richer.Event) (st : App) (tr : list App) :
  Richer.run es st = Some tr → tr !! 0%nat = Some st.
Proof.
  destruct es as [|e es]; simpl.
  - by intros [= <-].
  - destruct (Richer.step e st); [|done]. intros Hrun.
    apply fmap_Some in Hrun as (tr' & _ & ->). done.
Qed.

(** Consecutive states of a run are one turn apart. *)
Lemma run_lookup (es : list Richer.Event) :
  ∀ (st : App) (tr : list App) (i : nat) (a b : App),
    Richer.run es st = Some tr →
    tr !! i = Some a → tr !! S i = Some b →
    ∃ e, es !! i = Some e ∧ Richer.step e a = Some b.
Proof.
  induction es as [|e es IH]; intros st tr i a b Hrun Ha Hb; simpl in Hrun.
  - injection Hrun as <-. done.
  - destruct (Richer.step e st) as [st1|] eqn:Hstep; [|done].
    apply fmap_Some in Hrun as (tr' & Hrun' & ->).
    destruct i as [|i]; simpl in *.
    + injection Ha as <-. rewrite (run_head _ _ _ Hrun') in Hb. injection Hb as <-.
      by exists e.
    + by apply (IH st1 tr' i a b).
Qed.

(** Before any session exists the state is never [CONNECTED]; the first
    session is created by a turn that leaves the state [CONNECTING]. *)
Lemma run_connected_after_connecting (es : list Richer.Event) :
  ∀ (st : App) (tr : list App),
    Richer.run es st = Some tr →
    sessions (conn st) = [] →
    state_of st ≠ CONNECTED →
    ∀ i sti, tr !! i = Some sti → state_of sti = CONNECTED →
             ∃ j stj, (j < i)%nat ∧ tr !! j = Some stj ∧ state_of stj = CONNECTING.
Proof.
  induction es as [|e es IH]; intros st tr Hrun Hnil Hnot i sti Hi Hconn; simpl in Hrun.
  - injection Hrun as <-. destruct i; [|done]. injection Hi as <-. done.
  - destruct (Richer.step e st) as [st1|] eqn:Hstep; [|done].
    apply fmap_Some in Hrun as (tr' & Hrun' & ->).
    destruct i as [|i]; simpl in Hi; [injection Hi as <-; done |].
    pose proof (run_head _ _ _ Hrun') as Hhead.
    destruct (decide (state_of st1 = CONNECTING)) as [Hc|Hnc].
    + destruct i as [|i].
      * rewrite Hhead in Hi. injection Hi as <-. congruence.
      * exists 1%nat, st1. split; [lia |]. done.
    + assert (Hst1 : sessions (conn st1) = [] ∧ state_of st1 ≠ CONNECTED).
      { destruct (step_conn_effect _ _ _ Hstep) as
          [? ? Hc|? Hst Hs|? Hst Hs|Hc|Hst Hs|sid Hsid|sid Hst Hs|sid Hst Hs|Hst Hs|? _ Hc];
          unfold state_of in *;
          try (rewrite ?Hc, ?Hs, ?Hnil; split; [done | congruence]).
        by rewrite Hnil in Hsid. }
      destruct Hst1 as [Hnil1 Hnot1].
      destruct (IH st1 tr' Hrun' Hnil1 Hnot1 i sti Hi Hconn) as (j & stj & Hj & Htj & Hcj).
      exists (S j), stj. split; [lia |]. done.
Qed.

(** From a state that is not [CONNECTED] and has no attempt pending,
    automatic turns never reach [CONNECTED]. *)
Lemma run_automatic_never_connected (es : list Richer.Event) :
  ∀ (st : App) (tr : list App),
    Richer.run es st = Some tr →
    Forall (λ e, Richer.user_initiated e = false) es →
    no_pending st →
    state_of st ≠ CONNECTED →
    ∀ st', st' ∈ tr → state_of st' ≠ CONNECTED.
Proof.
  induction es as [|e es IH]; intros st tr Hrun Hauto Hnp Hnot st' Hin; simpl in Hrun.
  - injection Hrun as <-. apply list_elem_of_singleton in Hin as ->. done.
  - destruct (Richer.step e st) as [st1|] eqn:Hstep; [|done].
    apply fmap_Some in Hrun as (tr' & Hrun' & ->).
    apply Forall_cons in Hauto as [He Hes].
    apply elem_of_cons in Hin as [->|Hin]; [done |].
    apply (IH st1 tr' Hrun' Hes); [by eapply step_automatic_pending | | done].
    intros Hconn. destruct (step_into_connected _ _ _ Hstep Hnot Hconn) as (sid & _ & Hsid).
    apply Hnp. by eapply list_elem_of_lookup_2.
Qed.

(** A turn never takes back what was sent: it only appends. *)
Lemma step_sent_grows (e : Richer.Event) (st st' : App) :
  Richer.step e st = Some st' →
  ∃ new, sent (channel st') = sent (channel st) ++ microtasks (channel st) ++ new.
Proof.
  unfold Richer.step. intros Hstep.
  apply fmap_Some in Hstep as (st1 & Hst1 & ->). simpl.
  enough (∃ new, channel st1 =
                 mkChannel (microtasks (channel st) ++ new) (sent (channel st)))
    as [new ->] by by exists new.
  assert (Hsame : ∀ s : App, channel s = channel st →
            ∃ new, channel s = mkChannel (microtasks (channel st) ++ new) (sent (channel st))).
  { intros s ->. exists []. rewrite app_nil_r. by destruct (channel st). }
  destruct e as [apiKey throws| | |sid|sid message currentTime|sid|sid|tracks| |inputData|source];
    simpl in Hst1; repeat case_match; simplify_eq; try (by apply Hsame).
  - apply Hsame. unfold Richer.connectToGemini. by repeat case_match.
  - apply Hsame. unfold Richer.endCall. by repeat case_match.
  - apply Hsame. unfold Richer.toggleMute. by repeat case_match.
  - destruct (toolCall message) as [calls|] eqn:Htc.
    + destruct (richer_onmessage_sent (Richer.email_of st) message currentTime st calls Htc)
        as (rs & Hch & _). by eexists.
    + apply Hsame. unfold Richer.onmessage. rewrite Htc. by repeat case_match.
  - unfold Richer.onaudioprocess. destruct (inputClosed (capture st)).
    + by apply Hsame.
    + by eexists.
Qed.

(** Between turns nothing is queued: the hypothesis of C1 holds in every
    state of every run. *)
Lemma run_microtasks_empty (es : list Richer.Event) :
  ∀ (st : App) (tr : list App),
    Richer.run es st = Some tr →
    microtasks (channel st) = [] →
    ∀ st', st' ∈ tr → microtasks (channel st') = [].
Proof.
  induction es as [|e es IH]; intros st tr Hrun Hmt st' Hin; simpl in Hrun.
  - injection Hrun as <-. by apply list_elem_of_singleton in Hin as ->.
  - destruct (Richer.step e st) as [st1|] eqn:Hstep; [|done].
    apply fmap_Some in Hrun as (tr' & Hrun' & ->).
    apply elem_of_cons in Hin as [->|Hin]; [done |].
    apply (IH st1 tr' Hrun'); [by eapply step_microtasks_empty | done].
Qed.

(** C8 (as amended).  In every run from the mounted component: a state
    that is [CONNECTED] comes after a state that was [CONNECTING]; a turn
    into [CONNECTED], from [ERROR] or any other state, is the open event
    of a connection attempt that was still pending; no turn other than a
    user's creates a session; and from [ERROR] with no attempt pending,
    turns that the user did not initiate never reach [CONNECTED]. *)
Theorem C8_connected_only_by_open_of_started_session
    (u : option User) (ls : MockDatabase.Storage) (es : list Richer.Event) (tr : list App) :
  Richer.run es (Richer.init u ls) = Some tr →
  (∀ i st, tr !! i = Some st → state_of st = CONNECTED →
           ∃ j stj, (j < i)%nat ∧ tr !! j = Some stj ∧ state_of stj = CONNECTING) ∧
  (∀ i st st', tr !! i = Some st → tr !! S i = Some st' →
               state_of st ≠ CONNECTED → state_of st' = CONNECTED →
               ∃ sid, es !! i = Some (Richer.RemoteOpen sid) ∧
                      sessions (conn st) !! sid = Some Pending) ∧
  (∀ i st st' e, tr !! i = Some st → tr !! S i = Some st' → es !! i = Some e →
                 Richer.user_initiated e = false →
                 length (sessions (conn st')) = length (sessions (conn st))) ∧
  (∀ i st es' tr' st',
     tr !! i = Some st → state_of st = ERROR → no_pending st →
     Forall (λ e, Richer.user_initiated e = false) es' →
     Richer.run es' st = Some tr' →
     st' ∈ tr' → state_of st' ≠ CONNECTED).
Proof.
  intros Hrun. split; [|split; [|split]].
  - by apply (run_connected_after_connecting es (Richer.init u ls) tr).
  - intros i st st' Hi Hi' Hnot Hconn.
    destruct (run_lookup es _ tr i st st' Hrun Hi Hi') as (e & He & Hstep).
    destruct (step_into_connected e st st' Hstep) as (sid & -> & Hsid); [done | done |].
    by exists sid.
  - intros i st st' e Hi Hi' He Hauto.
    destruct (run_lookup es _ tr i st st' Hrun Hi Hi') as (e' & He' & Hstep).
    rewrite He in He'. injection He' as <-.
    by apply (step_automatic_sessions e st st').
  - intros i st es' tr' st' Hi Herr Hnp Hauto Hrun' Hin.
    apply (run_automatic_never_connected es' st tr' Hrun' Hauto Hnp); [congruence | done].
Qed.

End machine.

(** *** Runs of the state machine on the example host *)

Example reconnect_states :
  @states_of iso_host demo_reconnect demo_state =
    Some [DISCONNECTED; CONNECTING; CONNECTED; ERROR; DISCONNECTED; CONNECTING; CONNECTED].
Proof. reflexivity. Qed.

Lemma C8_connected_only_by_open_of_started_session_witness :
  ∃ tr,
    @Richer.run iso_host demo_reconnect (Richer.init (Some demo_user) None) = Some tr ∧
    (∀ i st, tr !! i = Some st → state_of st = CONNECTED →
             ∃ j stj, (j < i)%nat ∧ tr !! j = Some stj ∧ state_of stj = CONNECTING) ∧
    (∀ i st st', tr !! i = Some st → tr !! S i = Some st' →
                 state_of st ≠ CONNECTED → state_of st' = CONNECTED →
                 ∃ sid, demo_reconnect !! i = Some (Richer.RemoteOpen sid) ∧
                        sessions (conn st) !! sid = Some Pending) ∧
    (∀ i st st' e, tr !! i = Some st → tr !! S i = Some st' → demo_reconnect !! i = Some e →
                   Richer.user_initiated e = false →
                   length (sessions (conn st')) = length (sessions (conn st))) ∧
    (∀ i st es' tr' st',
       tr !! i = Some st → state_of st = ERROR → no_pending st →
       Forall (λ e, Richer.user_initiated e = false) es' →
       @Richer.run iso_host es' st = Some tr' →
       st' ∈ tr' → state_of st' ≠ CONNECTED).
Proof.
  destruct (@Richer.run iso_host demo_reconnect (Richer.init (Some demo_user) None))
    as [tr|] eqn:Hrun; [|discriminate Hrun].
  exists tr. split; [reflexivity |].
  exact (@C8_connected_only_by_open_of_started_session iso_host (Some demo_user) None
           demo_reconnect tr Hrun).
Defined.

(** C8 as stated fails: in this run the state is [ERROR] after the fourth
    turn and [CONNECTED] after the fifth, and the fifth turn is the open
    event of the first session, not an action of the user. *)
Lemma C8_error_to_connected_counterexample :
  @states_of iso_host demo_stale_open demo_state =
    Some [DISCONNECTED; CONNECTING; DISCONNECTED; CONNECTING; ERROR; CONNECTED] ∧
  demo_stale_open !! 4%nat = Some (Richer.RemoteOpen 0) ∧
  Richer.user_initiated (Richer.RemoteOpen 0) = false.
Proof. repeat split; reflexivity. Qed.

Example late_mic_states :
  @states_of iso_host demo_late_mic demo_state =
    Some [DISCONNECTED; CONNECTING; CONNECTED; DISCONNECTED; CONNECTING; ERROR; CONNECTED].
Proof. reflexivity. Qed.

(** *** The reduced variant on the example host *)

(** The reduced handler flushes a playing chunk on interruption. *)
Lemma reduced_interrupt_flushes_witness :
  interrupted interrupt_message = true ∧
  inlineData interrupt_message = None ∧
  playback (@Reduced.onmessage iso_host interrupt_message 1
              (@reduced_enqueue_all iso_host [("abcd", 0)] demo_ready)) =
    mkPlayback
      (outputAudioContext
         (playback (@reduced_enqueue_all iso_host [("abcd", 0)] demo_ready))) 0
      (stop_all
         (scheduledSources (playback (@reduced_enqueue_all iso_host [("abcd", 0)] demo_ready)))
         (nodes (playback (@reduced_enqueue_all iso_host [("abcd", 0)] demo_ready)))) ∅ ∧
  ∀ i n,
    i ∈ scheduledSources (playback (@reduced_enqueue_all iso_host [("abcd", 0)] demo_ready)) →
    nodes (playback (@reduced_enqueue_all iso_host [("abcd", 0)] demo_ready)) !! i = Some n →
    nodes (playback (@Reduced.onmessage iso_host interrupt_message 1
                       (@reduced_enqueue_all iso_host [("abcd", 0)] demo_ready))) !! i
      = Some (node_stop n).
Proof.
  split; [reflexivity |]. split; [reflexivity |].
  apply (@reduced_interrupt_flushes iso_host interrupt_message 1
           (@reduced_enqueue_all iso_host [("abcd", 0)] demo_ready)); reflexivity.
Defined.

(** The reduced handler sends nothing for a frame captured while muted. *)
Lemma reduced_frame_witness :
  microtasks (channel (Reduced.toggleMute demo_live)) = [] ∧
  audioLevel (capture (drain (@Reduced.onaudioprocess iso_host demo_frame
                                (Reduced.toggleMute demo_live)))) =
    @rms_of iso_host demo_frame ∧
  sent (channel (drain (@Reduced.onaudioprocess iso_host demo_frame
                          (Reduced.toggleMute demo_live)))) =
    if isMuted (capture (Reduced.toggleMute demo_live))
    then sent (channel (Reduced.toggleMute demo_live))
    else sent (channel (Reduced.toggleMute demo_live))
           ++ [SendRealtimeInput (@createPcmBlob iso_host demo_frame)].
Proof.
  split; [reflexivity |].
  apply (@reduced_frame iso_host demo_frame (Reduced.toggleMute demo_live)). reflexivity.
Defined.

(** *** The failing inputs, reached by runs from the mounted component *)

(** A call is started and opens, the microphone is granted, a chunk of
    four frames arrives at time 0 and an interruption at time 1: the
    chunk is still scheduled and not stopped. *)
Example interruption_in_a_run :
  (λ tr, playback <$> last tr) <$>
    @Richer.run iso_host
      [ Richer.Start true false; Richer.RemoteOpen 0; Richer.MicGranted 1;
        Richer.RemoteMessage 0 (audio_message "abcd") 0;
        Richer.RemoteMessage 0 interrupt_message 1 ]
      demo_state
  = Some (Some (mkPlayback true 4 [mkNode (mkAudioBuffer [0; 0; 0; 0]) 0 false] {[ 0%nat ]})).
Proof. reflexivity. Qed.

(** A call is started and opens, the microphone is granted, the user
    mutes, and a frame is captured: the frame is sent. *)
Example muted_frame_in_a_run :
  (λ tr, (λ st, (isMuted (capture st), sent (channel st))) <$> last tr) <$>
    @Richer.run iso_host
      [ Richer.Start true false; Richer.RemoteOpen 0; Richer.MicGranted 1;
        Richer.ToggleMute; Richer.AudioProcess demo_frame ]
      demo_state
  = Some (Some (true, [SendRealtimeInput "pcm"])).
Proof. reflexivity. Qed.

(** An unpriceable availability check and an unknown tool in one batch:
    two results, the first [unavailable], the second empty. *)
Example batch_in_a_run :
  (λ tr, (λ st, sent (channel st)) <$> last tr) <$>
    @Richer.run iso_host
      [ Richer.Start true false; Richer.RemoteOpen 0;
        Richer.RemoteMessage 0 (mkMessage None false (Some [demo_check_bad; demo_unknown])) 0 ]
      demo_state
  = Some (Some [ SendToolResponse
                   [ mkResponse "call-2" "check_availability"
                       (PObj {[ "status" := JStr "unavailable";
                                "message" := JStr "Invalid dates or room type." ]});
                     mkResponse "call-3" "get_weather" (PObj ∅) ] ]).
Proof. reflexivity. Qed.

(** * Further properties of the code *)

(** ** The booking store *)

(** [saveBooking] puts the new booking first, stamped with the id, the
    creation time and the status [confirmed] whatever the booking
    carried under those names, and keeps its other fields; a user's list
    gains the booking exactly when its e-mail is the user's. *)
Theorem saveBooking_then_getBookings
    (uuid created_at : string) (b : JsObj) (ls : MockDatabase.Storage) (email : string) :
  ∃ saved ls',
    MockDatabase.saveBooking uuid created_at b ls = (saved, ls') ∧
    saved !! "id" = Some (JStr uuid) ∧
    saved !! "created_at" = Some (JStr created_at) ∧
    saved !! "status" = Some (JStr "confirmed") ∧
    (∀ key, key ∉ ["id"; "created_at"; "status"] → saved !! key = b !! key) ∧
    MockDatabase.load ls' = saved :: MockDatabase.load ls ∧
    MockDatabase.getBookings email ls' =
      if decide (b !! "email" = Some (JStr email))
      then saved :: MockDatabase.getBookings email ls
      else MockDatabase.getBookings email ls.
Proof.
  unfold MockDatabase.saveBooking. eexists _, _. split; [reflexivity |].
  assert (Hother : ∀ key, key ∉ ["id"; "created_at"; "status"] →
            spread b {[ "id" := JStr uuid; "created_at" := JStr created_at;
                        "status" := JStr "confirmed" ]} !! key = b !! key).
  { intros key Hkey. rewrite !not_elem_of_cons in Hkey. destruct Hkey as (H1 & H2 & H3 & _).
    unfold spread. rewrite lookup_union.
    rewrite !lookup_insert_ne, lookup_singleton_ne by done. by destruct (b !! key). }
  assert (Hstamp : ∀ key v,
            ({[ "id" := JStr uuid; "created_at" := JStr created_at;
                "status" := JStr "confirmed" ]} : JsObj) !! key = Some v →
            spread b {[ "id" := JStr uuid; "created_at" := JStr created_at;
                        "status" := JStr "confirmed" ]} !! key = Some v).
  { intros key v Hv. unfold spread. rewrite lookup_union, Hv. by destruct (b !! key). }
  split; [by apply Hstamp |]. split; [by apply Hstamp |]. split; [by apply Hstamp |].
  split; [exact Hother |]. split; [reflexivity |].
  unfold MockDatabase.getBookings. simpl. rewrite filter_cons.
  rewrite Hother by (rewrite !not_elem_of_cons; repeat split; [done..| apply not_elem_of_nil]).
  destruct (decide (b !! "email" = Some (JStr email))); reflexivity.
Qed.

Lemma mark_cancelled_code (code : option JsVal) (b : JsObj) :
  mark_cancelled code b !! "confirmation_code" = b !! "confirmation_code".
Proof.
  unfold mark_cancelled. destruct (decide _); [|done]. by rewrite lookup_insert_ne.
Qed.

Lemma mark_cancelled_idemp (code : option JsVal) (b : JsObj) :
  mark_cancelled code (mark_cancelled code b) = mark_cancelled code b.
Proof.
  unfold mark_cancelled at 1. rewrite mark_cancelled_code.
  unfold mark_cancelled. destruct (decide _); [|done]. by rewrite insert_insert_eq.
Qed.

Lemma cancelBooking_spec (code : option JsVal) (ls : MockDatabase.Storage) :
  MockDatabase.cancelBooking code ls =
    (existsb (λ b : JsObj, bool_decide (b !! "confirmation_code" = code)) (MockDatabase.load ls),
     Some (map (mark_cancelled code) (MockDatabase.load ls))).
Proof. unfold MockDatabase.cancelBooking. by rewrite cancel_map_spec. Qed.

(** Cancelling the same code a second time changes nothing more and
    gives the same answer: the cancelled bookings keep their code. *)
Theorem cancelBooking_idempotent (code : option JsVal) (ls : MockDatabase.Storage) :
  MockDatabase.cancelBooking code (MockDatabase.cancelBooking code ls).2 =
  MockDatabase.cancelBooking code ls.
Proof.
  rewrite !cancelBooking_spec. simpl. f_equal.
  - induction (MockDatabase.load ls) as [|b l IH]; simpl; [done |].
    by rewrite mark_cancelled_code, IH.
  - f_equal. rewrite <- list_fmap_compose. apply list_fmap_ext.
    intros i b _. simpl. apply mark_cancelled_idemp.
Qed.

(** Cancelling never removes a booking from any user's list, nor adds
    one: each list keeps its bookings, in order, with the matching ones
    marked; and the only field a cancellation ever changes is the
    status. *)
Theorem cancelBooking_keeps_user_lists
    (code : option JsVal) (ls : MockDatabase.Storage) (email : string) :
  MockDatabase.getBookings email (MockDatabase.cancelBooking code ls).2 =
    map (mark_cancelled code) (MockDatabase.getBookings email ls) ∧
  length (MockDatabase.getBookings email (MockDatabase.cancelBooking code ls).2) =
    length (MockDatabase.getBookings email ls) ∧
  ∀ (b : JsObj) key, key ≠ "status" → mark_cancelled code b !! key = b !! key.
Proof.
  assert (Hkey : ∀ (b : JsObj) key, key ≠ "status" → mark_cancelled code b !! key = b !! key).
  { intros b key Hne. unfold mark_cancelled. destruct (decide _); [|done].
    by rewrite lookup_insert_ne. }
  assert (Heq : MockDatabase.getBookings email (MockDatabase.cancelBooking code ls).2 =
                map (mark_cancelled code) (MockDatabase.getBookings email ls)).
  { rewrite cancelBooking_spec. unfold MockDatabase.getBookings. simpl.
    induction (MockDatabase.load ls) as [|b l IH]; simpl; [done |].
    rewrite !filter_cons, Hkey by done.
    destruct (decide (b !! "email" = Some (JStr email))); simpl; by rewrite IH. }
  split; [exact Heq |]. split; [by rewrite Heq, length_map | exact Hkey].
Qed.

(** ** Pricing: failure and bounds *)

Section pricing_more.
Context `{Host}.

Lemma ROOM_RATES_bounds (key : string) (rate : Z) :
  Pricing.prop_get Pricing.ROOM_RATES key = Some rate → 150 ≤ rate ≤ 1200.
Proof.
  unfold Pricing.ROOM_RATES. cbn [Pricing.prop_get].
  repeat (destruct (String.eqb _ key); [intros [= <-]; lia |]). done.
Qed.

(** A result of [calculateStayCost] always comes from two valid dates, a
    string room type and a rate of the table. *)
Lemma calculateStayCost_Some (checkIn checkOut roomType : option JsVal)
    (f : Pricing.Financials) :
  Pricing.calculateStayCost checkIn checkOut roomType = Some f →
  ∃ start end_ s rate,
    Date_getTime checkIn = Some start ∧ Date_getTime checkOut = Some end_ ∧
    roomType = Some (JStr s) ∧
    Pricing.prop_get Pricing.ROOM_RATES (Pricing.rate_key s) = Some rate ∧
    f = Pricing.mkFinancials
          (num_or (Math_ceil_div (Z.abs (end_ - start)) ms_per_day) 1) rate
          (num_or (Math_ceil_div (Z.abs (end_ - start)) ms_per_day) 1 * rate).
Proof.
  unfold Pricing.calculateStayCost. intros Hf.
  destruct (Date_getTime checkIn) as [start|]; [|done].
  destruct (Date_getTime checkOut) as [end_|]; [|done].
  destruct roomType as [[s| | |]|]; try done.
  destruct (Pricing.prop_get _ _) as [rate|] eqn:Hrate; [|done].
  injection Hf as <-. by exists start, end_, s, rate.
Qed.

Lemma stay_cost_positive (checkIn checkOut roomType : option JsVal) (f : Pricing.Financials) :
  Pricing.calculateStayCost checkIn checkOut roomType = Some f →
  1 ≤ Pricing.nights f ∧ 150 ≤ Pricing.rate f ≤ 1200 ∧
  Pricing.total f = Pricing.nights f * Pricing.rate f.
Proof.
  intros Hf. destruct (calculateStayCost_Some _ _ _ _ Hf)
    as (start & end_ & s & rate & _ & _ & _ & Hrate & ->). simpl.
  pose proof (nights_nonneg start end_) as Hnn.
  rewrite num_or_1_max by done. split; [lia |]. split; [by eapply ROOM_RATES_bounds | done].
Qed.

(** [calculateStayCost] answers [null] exactly when one of the two dates
    is invalid or missing, or the room type is missing or not a string. *)
Theorem calculateStayCost_null_iff (checkIn checkOut roomType : option JsVal) :
  Pricing.calculateStayCost checkIn checkOut roomType = None ↔
  Date_getTime checkIn = None ∨ Date_getTime checkOut = None ∨
  (∀ s, roomType ≠ Some (JStr s)).
Proof.
  unfold Pricing.calculateStayCost. split.
  - destruct (Date_getTime checkIn) as [start|]; [|by left].
    destruct (Date_getTime checkOut) as [end_|]; [|by right; left].
    destruct roomType as [[s| | |]|]; try (by intros _; right; right).
    destruct (rate_key_in_table s) as [rate ->]. done.
  - intros [-> | [-> | Hrt]]; [done | by destruct (Date_getTime checkIn) |].
    destruct (Date_getTime checkIn), (Date_getTime checkOut); try done.
    destruct roomType as [[s| | |]|]; try done. by destruct (Hrt s).
Qed.

(** Every quote is for at least one night at a rate of the table, between
    150 and 1200, and its total, nights times rate, is at least 150. *)
Theorem calculateStayCost_bounds (checkIn checkOut roomType : option JsVal)
    (f : Pricing.Financials) :
  Pricing.calculateStayCost checkIn checkOut roomType = Some f →
  1 ≤ Pricing.nights f ∧ 150 ≤ Pricing.rate f ≤ 1200 ∧
  Pricing.total f = Pricing.nights f * Pricing.rate f ∧ 150 ≤ Pricing.total f.
Proof.
  intros Hf. destruct (stay_cost_positive _ _ _ _ Hf) as (Hn & Hr & Ht).
  repeat split; try done; try lia; rewrite Ht; nia.
Qed.

(** When pricing succeeds, the richer [check_availability] handler sends
    the quote with status [available] and currency USD, and writes the
    same figures into the draft: nights, nightly rate and total agree
    between the answer and the draft, every argument of the call
    overrides the draft field of its name, and other draft fields stay. *)
Theorem richer_quote_matches_draft
    (email : string) (call : FunctionCall) (st : App) (f : Pricing.Financials) :
  call_name call = "check_availability" →
  Pricing.calculateStayCost (call_args call !! "check_in_date")
                            (call_args call !! "check_out_date")
                            (call_args call !! "room_type") = Some f →
  ∃ (r : JsObj) st',
    Richer.handle_call email call st = (PObj r, st') ∧
    r !! "status" = Some (JStr "available") ∧
    r !! "nights" = Some (JNum (Pricing.nights f)) ∧
    r !! "rate" = Some (JNum (Pricing.rate f)) ∧
    r !! "total" = Some (JNum (Pricing.total f)) ∧
    r !! "currency" = Some (JStr "USD") ∧
    currentBooking (booking st') !! "total_nights" = Some (JNum (Pricing.nights f)) ∧
    currentBooking (booking st') !! "price_per_night" = Some (JNum (Pricing.rate f)) ∧
    currentBooking (booking st') !! "total_cost" = Some (JNum (Pricing.total f)) ∧
    (∀ key, key ∉ ["price_per_night"; "total_cost"; "total_nights"] →
       currentBooking (booking st') !! key =
         match call_args call !! key with
         | Some v => Some v
         | None => currentBooking (booking st) !! key
         end) ∧
    finalizedBooking (booking st') = finalizedBooking (booking st) ∧
    localStorage (booking st') = localStorage (booking st).
Proof.
  intros Hname Hf. destruct (stay_cost_positive _ _ _ _ Hf) as (Hn & Hr & Ht).
  assert (Htot : 150 ≤ Pricing.total f) by (rewrite Ht; nia).
  unfold Richer.handle_call. rewrite Hname, Hf. simpl.
  assert (Hor : ∀ x, 1 ≤ x → num_or x 0 = x).
  { intros x Hx. unfold num_or. destruct (Z.eqb_spec x 0); lia. }
  rewrite !Hor by lia. clear Hf.
  eexists _, _. split; [reflexivity |]. simpl.
  unfold spread. rewrite !lookup_union.
  repeat split; try reflexivity.
  - rewrite !lookup_insert_ne, lookup_singleton_eq by done.
    by destruct (call_args call !! _), (currentBooking (booking st) !! _).
  - rewrite lookup_insert_eq.
    by destruct (call_args call !! _), (currentBooking (booking st) !! _).
  - rewrite lookup_insert_ne, lookup_insert_eq by done.
    by destruct (call_args call !! _), (currentBooking (booking st) !! _).
  - intros key Hkey. rewrite !not_elem_of_cons in Hkey. destruct Hkey as (H1 & H2 & H3 & _).
    rewrite !lookup_union, !lookup_insert_ne, lookup_singleton_ne by done.
    by destruct (call_args call !! key), (currentBooking (booking st) !! key).
Qed.

(** The reduced [check_availability] handler answers [available] for
    every call, priced or not; the total appears in the answer and in
    the draft exactly when pricing succeeded; and the draft is replaced
    by the arguments of the call, not merged with what it held. *)
Theorem reduced_check_always_available (call : FunctionCall) (st : App) :
  call_name call = "check_availability" →
  ∃ (r : JsObj) st',
    Reduced.handle_call call st = (PObj r, st') ∧
    r !! "status" = Some (JStr "available") ∧
    r !! "total" = currentBooking (booking st') !! "total_cost" ∧
    r !! "total" =
      (JNum ∘ Pricing.total) <$>
        Pricing.calculateStayCost (call_args call !! "check_in_date")
                                  (call_args call !! "check_out_date")
                                  (call_args call !! "room_type") ∧
    (∀ key, key ≠ "total_cost" →
            currentBooking (booking st') !! key = call_args call !! key).
Proof.
  intros Hname. unfold Reduced.handle_call. rewrite Hname. simpl.
  eexists _, _. split; [reflexivity |]. simpl.
  destruct (Pricing.calculateStayCost _ _ _) as [f|]; simpl.
  - unfold spread. rewrite !lookup_union. repeat split; try reflexivity.
    + by rewrite lookup_insert_eq.
    + intros key Hkey. by rewrite lookup_insert_ne.
  - unfold spread. rewrite !lookup_union. repeat split; try reflexivity.
    + by rewrite lookup_delete_eq.
    + intros key Hkey. by rewrite lookup_delete_ne.
Qed.

End pricing_more.

Lemma calculateStayCost_bounds_witness :
  @Pricing.calculateStayCost iso_host
     (call_args demo_check !! "check_in_date") (call_args demo_check !! "check_out_date")
     (call_args demo_check !! "room_type") = Some (Pricing.mkFinancials 2 450 900) ∧
  1 ≤ 2 ∧ 150 ≤ 450 ≤ 1200 ∧ 900 = 2 * 450 ∧ 150 ≤ 900.
Proof.
  split; [reflexivity |].
  apply (@calculateStayCost_bounds iso_host
           (call_args demo_check !! "check_in_date") (call_args demo_check !! "check_out_date")
           (call_args demo_check !! "room_type") (Pricing.mkFinancials 2 450 900)).
  reflexivity.
Defined.

Lemma richer_quote_matches_draft_witness :
  call_name demo_check = "check_availability" ∧
  @Pricing.calculateStayCost iso_host
     (call_args demo_check !! "check_in_date") (call_args demo_check !! "check_out_date")
     (call_args demo_check !! "room_type") = Some (Pricing.mkFinancials 2 450 900) ∧
  ∃ (r : JsObj) st',
    @Richer.handle_call iso_host "ada@example.org" demo_check demo_state = (PObj r, st') ∧
    r !! "status" = Some (JStr "available") ∧
    r !! "nights" = Some (JNum 2) ∧
    r !! "rate" = Some (JNum 450) ∧
    r !! "total" = Some (JNum 900) ∧
    r !! "currency" = Some (JStr "USD") ∧
    currentBooking (booking st') !! "total_nights" = Some (JNum 2) ∧
    currentBooking (booking st') !! "price_per_night" = Some (JNum 450) ∧
    currentBooking (booking st') !! "total_cost" = Some (JNum 900) ∧
    (∀ key, key ∉ ["price_per_night"; "total_cost"; "total_nights"] →
       currentBooking (booking st') !! key =
         match call_args demo_check !! key with
         | Some v => Some v
         | None => currentBooking (booking demo_state) !! key
         end) ∧
    finalizedBooking (booking st') = finalizedBooking (booking demo_state) ∧
    localStorage (booking st') = localStorage (booking demo_state).
Proof.
  split; [reflexivity |]. split; [reflexivity |].
  apply (@richer_quote_matches_draft iso_host "ada@example.org" demo_check demo_state
           (Pricing.mkFinancials 2 450 900)); reflexivity.
Defined.

Lemma reduced_check_always_available_witness :
  call_name demo_check_bad = "check_availability" ∧
  ∃ (r : JsObj) st',
    @Reduced.handle_call iso_host demo_check_bad demo_state = (PObj r, st') ∧
    r !! "status" = Some (JStr "available") ∧
    r !! "total" = currentBooking (booking st') !! "total_cost" ∧
    r !! "total" =
      (JNum ∘ Pricing.total) <$>
        @Pricing.calculateStayCost iso_host
           (call_args demo_check_bad !! "check_in_date")
           (call_args demo_check_bad !! "check_out_date")
           (call_args demo_check_bad !! "room_type") ∧
    (∀ key, key ≠ "total_cost" →
            currentBooking (booking st') !! key = call_args demo_check_bad !! key).
Proof.
  split; [reflexivity |].
  apply (@reduced_check_always_available iso_host demo_check_bad demo_state). reflexivity.
Defined.



(** ** The booking tools of the richer variant *)

Section booking_tools.
Context `{Host}.

Lemma richer_finalize_eq (email : string) (call : FunctionCall) (st : App) :
  call_name call = "finalize_booking" →
  Richer.handle_call email call st =
    (PObj {[ "confirmation_code" := JStr (richer_confCode st) ]},
     with_booking
       (mkBooking (richer_completeBooking email (call_args call) st)
                  (Some (richer_completeBooking email (call_args call) st))
                  (Some (richer_savedBooking email (call_args call) st
                         :: MockDatabase.load (localStorage (booking st))))
                  (S (draws (booking st)))) st).
Proof. intros Hname. unfold Richer.handle_call. rewrite Hname. reflexivity. Qed.

Lemma richer_list_eq (email : string) (call : FunctionCall) (st : App) :
  call_name call = "list_bookings" →
  Richer.handle_call email call st =
    (PArr (filter (λ b : JsObj, b !! "status" = Some (JStr "confirmed"))
                  (MockDatabase.getBookings email (localStorage (booking st)))), st).
Proof. intros Hname. unfold Richer.handle_call. rewrite Hname. reflexivity. Qed.

Lemma richer_cancel_eq (email : string) (call : FunctionCall) (st : App) :
  call_name call = "cancel_booking" →
  Richer.handle_call email call st =
    (PObj (if (MockDatabase.cancelBooking (call_args call !! "confirmation_code")
                                          (localStorage (booking st))).1
           then {[ "status" := JStr "success"; "message" := JStr "Booking cancelled" ]}
           else {[ "status" := JStr "error"; "message" := JStr "Booking not found" ]}),
     with_booking
       (mkBooking (currentBooking (booking st)) (finalizedBooking (booking st))
                  (MockDatabase.cancelBooking (call_args call !! "confirmation_code")
                                              (localStorage (booking st))).2
                  (draws (booking st))) st).
Proof.
  intros Hname. unfold Richer.handle_call. rewrite Hname. simpl.
  by destruct (MockDatabase.cancelBooking _ _) as [[] ls].
Qed.

Lemma spread_lookup_new (a b : JsObj) (key : string) (v : JsVal) :
  b !! key = Some v → spread a b !! key = Some v.
Proof. intros Hb. unfold spread. by apply lookup_union_Some_l. Qed.

Lemma spread_lookup_old (a b : JsObj) (key : string) :
  b !! key = None → spread a b !! key = a !! key.
Proof. intros Hb. unfold spread. by apply lookup_union_r. Qed.

Lemma completeBooking_fields (email : string) (args : JsObj) (st : App) :
  richer_completeBooking email args st !! "email" = Some (JStr email) ∧
  richer_completeBooking email args st !! "confirmation_code" = Some (JStr (richer_confCode st)) ∧
  ∀ key, key ∉ ["email"; "confirmation_code"] →
         richer_completeBooking email args st !! key = args !! key.
Proof.
  unfold richer_completeBooking. split; [|split].
  - apply spread_lookup_new. by rewrite lookup_insert_eq.
  - apply spread_lookup_new. by rewrite lookup_insert_ne, lookup_singleton_eq.
  - intros key Hkey. rewrite !not_elem_of_cons in Hkey. destruct Hkey as (H1 & H2 & _).
    apply spread_lookup_old. by rewrite lookup_insert_ne, lookup_singleton_ne.
Qed.

Lemma savedBooking_fields (email : string) (args : JsObj) (st : App) :
  richer_savedBooking email args st !! "id"
    = Some (JStr (randomUUID (entropy (draws (booking st))))) ∧
  richer_savedBooking email args st !! "created_at"
    = Some (JStr (toISOString (entropy (draws (booking st))))) ∧
  richer_savedBooking email args st !! "status" = Some (JStr "confirmed") ∧
  richer_savedBooking email args st !! "email" = Some (JStr email) ∧
  richer_savedBooking email args st !! "confirmation_code" = Some (JStr (richer_confCode st)) ∧
  ∀ key, key ∉ ["id"; "created_at"; "status"] →
         richer_savedBooking email args st !! key
           = richer_completeBooking email args st !! key.
Proof.
  assert (Hother : ∀ key, key ∉ ["id"; "created_at"; "status"] →
            richer_savedBooking email args st !! key
              = richer_completeBooking email args st !! key).
  { intros key Hkey. rewrite !not_elem_of_cons in Hkey. destruct Hkey as (H1 & H2 & H3 & _).
    apply spread_lookup_old. by rewrite !lookup_insert_ne, lookup_singleton_ne. }
  destruct (completeBooking_fields email args st) as (He & Hc & _).
  split; [| split; [| split; [| split; [| split]]]].
  - apply spread_lookup_new. by rewrite lookup_insert_eq.
  - apply spread_lookup_new. by rewrite lookup_insert_ne, lookup_insert_eq.
  - apply spread_lookup_new. by rewrite !lookup_insert_ne, lookup_singleton_eq.
  - rewrite <- He. apply Hother. rewrite !not_elem_of_cons. repeat split; try done.
    apply not_elem_of_nil.
  - rewrite <- Hc. apply Hother. rewrite !not_elem_of_cons. repeat split; try done.
    apply not_elem_of_nil.
  - exact Hother.
Qed.

(** The richer [finalize_booking] handler answers with the confirmation
    code and stores one booking, first in the store, that carries this
    code, the account e-mail (whatever e-mail the call passed), status
    [confirmed] and the other arguments of the call as they came; the
    draft and the finalized booking both become the completed booking;
    nothing already stored is touched. *)
Theorem richer_finalize_stores_booking (email : string) (call : FunctionCall) (st : App) :
  call_name call = "finalize_booking" →
  ∃ code (fb saved : JsObj) st',
    Richer.handle_call email call st = (PObj {[ "confirmation_code" := JStr code ]}, st') ∧
    currentBooking (booking st') = fb ∧
    finalizedBooking (booking st') = Some fb ∧
    fb !! "confirmation_code" = Some (JStr code) ∧
    fb !! "email" = Some (JStr email) ∧
    (∀ key, key ∉ ["email"; "confirmation_code"] → fb !! key = call_args call !! key) ∧
    MockDatabase.load (localStorage (booking st')) =
      saved :: MockDatabase.load (localStorage (booking st)) ∧
    saved !! "status" = Some (JStr "confirmed") ∧
    (∀ key, key ∉ ["id"; "created_at"; "status"] → saved !! key = fb !! key) ∧
    draws (booking st') = S (draws (booking st)).
Proof.
  intros Hname. rewrite (richer_finalize_eq email call st Hname).
  destruct (completeBooking_fields email (call_args call) st) as (He & Hc & Ho).
  destruct (savedBooking_fields email (call_args call) st) as (_ & _ & Hs & _ & _ & Hso).
  eexists _, _, _, _. split; [reflexivity |]. simpl. repeat split; done.
Qed.

Lemma conf_code_of_random (r : Z) :
  0 ≤ r < 10000 → conf_code_ok ("OMNI-" +:+ padStart (pretty r) 4 "0") = true.
Proof.
  intros Hr.
  assert (Hall : forallb (λ n, conf_code_ok ("OMNI-" +:+ padStart (pretty (Z.of_nat n)) 4 "0"))
                         (seq 0 (Z.to_nat 10000)) = true) by (vm_compute; reflexivity).
  rewrite forallb_forall in Hall.
  rewrite <- (Z2Nat.id r) by lia. apply Hall. apply in_seq. lia.
Qed.

(** When the random draw is in its range, the confirmation code the
    richer handler issues is ["OMNI-"] followed by exactly four decimal
    digits, zero-padded on the left. *)
Theorem richer_confirmation_code_format (email : string) (call : FunctionCall) (st : App) :
  call_name call = "finalize_booking" →
  0 ≤ random_10000 (entropy (draws (booking st))) < 10000 →
  ∃ code st',
    Richer.handle_call email call st = (PObj {[ "confirmation_code" := JStr code ]}, st') ∧
    conf_code_ok code = true.
Proof.
  intros Hname Hr. rewrite (richer_finalize_eq email call st Hname).
  eexists _, _. split; [reflexivity |]. exact (conf_code_of_random _ Hr).
Qed.

(** [list_bookings] answers with exactly the stored bookings that carry
    the caller's e-mail and the status [confirmed], in store order, and
    changes nothing. *)
Theorem richer_list_bookings_own_confirmed (email : string) (call : FunctionCall) (st : App) :
  call_name call = "list_bookings" →
  ∃ listed,
    Richer.handle_call email call st = (PArr listed, st) ∧
    listed `sublist_of` MockDatabase.load (localStorage (booking st)) ∧
    ∀ b : JsObj, b ∈ listed ↔
      b ∈ MockDatabase.load (localStorage (booking st)) ∧
      b !! "email" = Some (JStr email) ∧ b !! "status" = Some (JStr "confirmed").
Proof.
  intros Hname. rewrite (richer_list_eq email call st Hname).
  eexists. split; [reflexivity |]. unfold MockDatabase.getBookings. split.
  - etrans; apply sublist_filter.
  - intros b. rewrite !list_elem_of_filter. tauto.
Qed.

(** Finalize, list, cancel with the issued code, list again: the first
    list starts with the new booking; the cancellation reports success
    and leaves the booking in the store, first, with status
    [cancelled]; the second list holds no booking with that code. *)
Theorem richer_finalize_cancel_list
    (email id1 id2 id3 id4 : string) (args : JsObj) (st : App) :
  ∃ code st1 st2 listed1 listed2 (saved saved' : JsObj),
    Richer.handle_call email (mkCall id1 "finalize_booking" args) st =
      (PObj {[ "confirmation_code" := JStr code ]}, st1) ∧
    Richer.handle_call email (mkCall id2 "list_bookings" ∅) st1 = (PArr listed1, st1) ∧
    head listed1 = Some saved ∧
    saved !! "confirmation_code" = Some (JStr code) ∧
    Richer.handle_call email
      (mkCall id3 "cancel_booking" {[ "confirmation_code" := JStr code ]}) st1 =
      (PObj {[ "status" := JStr "success"; "message" := JStr "Booking cancelled" ]}, st2) ∧
    head (MockDatabase.load (localStorage (booking st2))) = Some saved' ∧
    saved' !! "confirmation_code" = Some (JStr code) ∧
    saved' !! "status" = Some (JStr "cancelled") ∧
    Richer.handle_call email (mkCall id4 "list_bookings" ∅) st2 = (PArr listed2, st2) ∧
    ∀ b : JsObj, b ∈ listed2 → b !! "confirmation_code" ≠ Some (JStr code).
Proof.
  destruct (savedBooking_fields email args st) as (_ & _ & Hs & He & Hc & _).
  set (saved := richer_savedBooking email args st) in *.
  set (code := richer_confCode st) in *.
  set (st1 := with_booking
                (mkBooking (richer_completeBooking email args st)
                           (Some (richer_completeBooking email args st))
                           (Some (saved :: MockDatabase.load (localStorage (booking st))))
                           (S (draws (booking st)))) st).
  assert (Hmark : mark_cancelled (Some (JStr code)) saved = <[ "status" := JStr "cancelled" ]> saved).
  { unfold mark_cancelled. by rewrite decide_True. }
  assert (Hl : ({[ "confirmation_code" := JStr code ]} : JsObj) !! "confirmation_code"
               = Some (JStr code)) by apply lookup_singleton_eq.
  assert (Hcancel :
    MockDatabase.cancelBooking (Some (JStr code))
      (Some (saved :: MockDatabase.load (localStorage (booking st)))) =
    (true, Some (<[ "status" := JStr "cancelled" ]> saved
                 :: map (mark_cancelled (Some (JStr code)))
                        (MockDatabase.load (localStorage (booking st)))))).
  { rewrite cancelBooking_spec. simpl. rewrite bool_decide_eq_true_2 by done.
    simpl. by rewrite Hmark. }
  exists code, st1.
  eexists _, _, _, saved, (<[ "status" := JStr "cancelled" ]> saved).
  split; [by rewrite richer_finalize_eq |].
  split; [by rewrite richer_list_eq |].
  split.
  { unfold MockDatabase.getBookings. simpl.
    rewrite filter_cons, decide_True by done. rewrite filter_cons, decide_True by done. done. }
  split; [done |].
  split.
  { rewrite richer_cancel_eq by done. cbn [call_args]. rewrite Hl.
    change (localStorage (booking st1))
      with (Some (saved :: MockDatabase.load (localStorage (booking st)))).
    rewrite Hcancel. reflexivity. }
  split; [reflexivity |].
  split; [by rewrite lookup_insert_ne |]. split; [by rewrite lookup_insert_eq |].
  split; [by rewrite richer_list_eq |].
  intros b Hb Hcode. unfold MockDatabase.getBookings in Hb. simpl in Hb.
  apply list_elem_of_filter in Hb as [Hconf Hb]. apply list_elem_of_filter in Hb as [_ Hb].
  apply elem_of_cons in Hb as [-> | Hb].
  - rewrite lookup_insert_eq in Hconf. discriminate Hconf.
  - apply list_elem_of_fmap in Hb as (b0 & -> & _).
    rewrite mark_cancelled_code in Hcode. unfold mark_cancelled in Hconf.
    rewrite decide_True in Hconf by done. rewrite lookup_insert_eq in Hconf. discriminate Hconf.
Qed.

End booking_tools.

Lemma richer_finalize_stores_booking_witness :
  call_name demo_finalize = "finalize_booking" ∧
  ∃ code (fb saved : JsObj) st',
    @Richer.handle_call iso_host "ada@example.org" demo_finalize demo_state =
      (PObj {[ "confirmation_code" := JStr code ]}, st') ∧
    currentBooking (booking st') = fb ∧
    finalizedBooking (booking st') = Some fb ∧
    fb !! "confirmation_code" = Some (JStr code) ∧
    fb !! "email" = Some (JStr "ada@example.org") ∧
    (∀ key, key ∉ ["email"; "confirmation_code"] → fb !! key = call_args demo_finalize !! key) ∧
    MockDatabase.load (localStorage (booking st')) =
      saved :: MockDatabase.load (localStorage (booking demo_state)) ∧
    saved !! "status" = Some (JStr "confirmed") ∧
    (∀ key, key ∉ ["id"; "created_at"; "status"] → saved !! key = fb !! key) ∧
    draws (booking st') = S (draws (booking demo_state)).
Proof.
  split; [reflexivity |].
  apply (@richer_finalize_stores_booking iso_host "ada@example.org" demo_finalize demo_state).
  reflexivity.
Defined.

Lemma richer_confirmation_code_format_witness :
  call_name demo_finalize = "finalize_booking" ∧
  0 ≤ random_10000 (@entropy iso_host (draws (booking demo_state))) < 10000 ∧
  ∃ code st',
    @Richer.handle_call iso_host "ada@example.org" demo_finalize demo_state =
      (PObj {[ "confirmation_code" := JStr code ]}, st') ∧
    conf_code_ok code = true.
Proof.
  split; [reflexivity |]. split; [simpl; lia |].
  apply (@richer_confirmation_code_format iso_host "ada@example.org" demo_finalize demo_state);
    [reflexivity | simpl; lia].
Defined.

Lemma richer_list_bookings_own_confirmed_witness :
  call_name demo_list = "list_bookings" ∧
  ∃ listed,
    @Richer.handle_call iso_host "ada@example.org" demo_list demo_state
      = (PArr listed, demo_state) ∧
    listed `sublist_of` MockDatabase.load (localStorage (booking demo_state)) ∧
    ∀ b : JsObj, b ∈ listed ↔
      b ∈ MockDatabase.load (localStorage (booking demo_state)) ∧
      b !! "email" = Some (JStr "ada@example.org") ∧ b !! "status" = Some (JStr "confirmed").
Proof.
  split; [reflexivity |].
  apply (@richer_list_bookings_own_confirmed iso_host "ada@example.org" demo_list demo_state).
  reflexivity.
Defined.

(** ** The playback queue *)

Lemma stop_all_empty (ns : list SourceNode) : stop_all ∅ ns = ns.
Proof.
  apply list_eq. intros i. rewrite stop_all_lookup.
  destruct (ns !! i) as [n|]; simpl; [|done]. by rewrite decide_False by apply not_elem_of_empty.
Qed.

Lemma playback_ok_flush (ctx : bool) (ns : list SourceNode) :
  playback_ok (mkPlayback ctx 0 ns ∅).
Proof.
  unfold playback_ok. simpl. split; [|split; [done | lia]].
  intros i Hi. by apply not_elem_of_empty in Hi.
Qed.

Lemma playback_ok_enqueue (p : Playback) (audioBuffer : AudioBuffer) (currentTime : Z) :
  playback_ok p →
  playback_ok
    (mkPlayback true (Z.max (nextStartTime p) currentTime + duration audioBuffer)
                (nodes p ++ [mkNode audioBuffer (Z.max (nextStartTime p) currentTime) false])
                ({[ length (nodes p) ]} ∪ scheduledSources p)).
Proof.
  intros (Hsrc & _ & Hclock). pose proof (duration_nonneg audioBuffer) as Hdur.
  unfold playback_ok. simpl. split; [|split; [done | lia]].
  intros i Hi. apply elem_of_union in Hi as [Hi | Hi].
  - apply elem_of_singleton in Hi as ->. eexists. split.
    + rewrite lookup_app_r by done. by rewrite Nat.sub_diag.
    + split; [done |]. unfold node_end. simpl. lia.
  - destruct (Hsrc i Hi) as (n & Hn & Hstop & Hend). exists n. split.
    + by rewrite lookup_app_l by by eapply lookup_lt_Some.
    + split; [done | lia].
Qed.

Lemma playback_ok_delete (p : Playback) (source : nat) :
  playback_ok p →
  playback_ok (mkPlayback (outputAudioContext p) (nextStartTime p) (nodes p)
                          (scheduledSources p ∖ {[ source ]})).
Proof.
  intros (Hsrc & Hctx & Hclock). unfold playback_ok. simpl. split; [|split; [|done]].
  - intros i Hi. apply elem_of_difference in Hi as [Hi _]. by apply Hsrc.
  - intros Hoff. destruct (Hctx Hoff) as [-> ->]. split; [|done].
    apply set_eq. intros i. rewrite elem_of_difference. split; [tauto |].
    intros Hi. by apply not_elem_of_empty in Hi.
Qed.

Lemma playback_ok_context (p : Playback) :
  playback_ok p →
  playback_ok (mkPlayback true (nextStartTime p) (nodes p) (scheduledSources p)).
Proof. intros (Hsrc & _ & Hclock). unfold playback_ok. simpl. by repeat split. Qed.

Section playback_queue.
Context `{Host}.

Lemma richer_onmessage_playback (email : string) (message : LiveServerMessage)
    (currentTime : Z) (st : App) :
  playback (Richer.onmessage email message currentTime st) =
    match inlineData message with
    | Some base64Audio =>
        if negb (String.eqb base64Audio "") && outputAudioContext (playback st) then
          mkPlayback true
            (Z.max (nextStartTime (playback st)) currentTime
             + duration (decodeAudioData base64Audio))
            (nodes (playback st)
             ++ [mkNode (decodeAudioData base64Audio)
                        (Z.max (nextStartTime (playback st)) currentTime) false])
            ({[ length (nodes (playback st)) ]} ∪ scheduledSources (playback st))
        else playback st
    | None => playback st
    end.
Proof.
  unfold Richer.onmessage.
  match goal with |- context [match toolCall message with _ => _ end] =>
    destruct (toolCall message) as [calls|] end.
  - match goal with |- context [Richer.handle_calls email calls [] ?s] =>
      destruct (richer_handle_calls_spec email calls [] s) as (_ & _ & _ & _ & Hpb);
      destruct (Richer.handle_calls email calls [] s) as [rs st2] end.
    simpl in *. rewrite Hpb. destruct (inlineData message) as [data|]; [|done].
    destruct (negb _); simpl; [|done]. by destruct (outputAudioContext (playback st)) eqn:Hctx.
  - destruct (inlineData message) as [data|]; [|done].
    destruct (negb _); simpl; [|done]. by destruct (outputAudioContext (playback st)) eqn:Hctx.
Qed.

Lemma reduced_onmessage_playback (message : LiveServerMessage) (currentTime : Z) (st : App) :
  playback (Reduced.onmessage message currentTime st) =
    let p :=
      if interrupted message then
        mkPlayback (outputAudioContext (playback st)) 0
                   (stop_all (scheduledSources (playback st)) (nodes (playback st))) ∅
      else playback st in
    match inlineData message with
    | Some base64Audio =>
        if negb (String.eqb base64Audio "") then
          mkPlayback true
            (Z.max (nextStartTime p) currentTime + duration (decodeAudioData base64Audio))
            (nodes p ++ [mkNode (decodeAudioData base64Audio)
                                (Z.max (nextStartTime p) currentTime) false])
            ({[ length (nodes p) ]} ∪ scheduledSources p)
        else p
    | None => p
    end.
Proof.
  unfold Reduced.onmessage.
  match goal with |- context [match toolCall message with _ => _ end] =>
    destruct (toolCall message) as [calls|] end.
  - match goal with |- context [Reduced.handle_calls calls ?s] =>
      destruct (reduced_handle_calls_spec calls s) as (_ & _ & _ & _ & ->) end.
    destruct (interrupted message), (inlineData message) as [data|]; simpl; try done;
      by destruct (negb _).
  - destruct (interrupted message), (inlineData message) as [data|]; simpl; try done;
      by destruct (negb _).
Qed.

(** Before the output context exists (between the open event and the
    answer of the microphone request, or after any [stopAudio]), the
    richer handler drops every audio chunk: nothing is decoded,
    scheduled or queued for later; the tool calls of the same message
    are still answered. *)
Theorem richer_audio_dropped_without_output_context
    (email : string) (message : LiveServerMessage) (currentTime : Z) (st : App) :
  outputAudioContext (playback st) = false →
  playback (Richer.onmessage email message currentTime st) = playback st ∧
  Richer.onmessage email message currentTime st =
    Richer.onmessage email (mkMessage None (interrupted message) (toolCall message))
                     currentTime st ∧
  (toolCall message = None → Richer.onmessage email message currentTime st = st).
Proof.
  intros Hctx.
  assert (Heq : Richer.onmessage email message currentTime st =
                Richer.onmessage email (mkMessage None (interrupted message) (toolCall message))
                                 currentTime st).
  { unfold Richer.onmessage. simpl. rewrite Hctx.
    destruct (inlineData message) as [data|]; [|done]. by rewrite andb_false_r. }
  split; [|split; [exact Heq |]].
  - rewrite richer_onmessage_playback, Hctx.
    destruct (inlineData message) as [data|]; [|done]. by rewrite andb_false_r.
  - intros Hno. rewrite Heq. unfold Richer.onmessage. simpl. by rewrite Hno.
Qed.

(** The reduced handler creates the output context when there is none,
    so a chunk is scheduled in any state; and when the same message
    carries the interruption flag, the chunk is the only scheduled
    source afterwards, starts at the current time and every source that
    was scheduled before is stopped. *)
Theorem reduced_interrupt_then_audio
    (message : LiveServerMessage) (data : string) (currentTime : Z) (st : App) :
  interrupted message = true →
  inlineData message = Some data →
  data ≠ "" →
  0 ≤ currentTime →
  ∃ source,
    source = length (nodes (playback st)) ∧
    outputAudioContext (playback (Reduced.onmessage message currentTime st)) = true ∧
    scheduledSources (playback (Reduced.onmessage message currentTime st)) = {[ source ]} ∧
    nodes (playback (Reduced.onmessage message currentTime st)) !! source =
      Some (mkNode (decodeAudioData data) currentTime false) ∧
    nextStartTime (playback (Reduced.onmessage message currentTime st)) =
      currentTime + duration (decodeAudioData data) ∧
    ∀ i n, i ∈ scheduledSources (playback st) →
           nodes (playback st) !! i = Some n →
           nodes (playback (Reduced.onmessage message currentTime st)) !! i
             = Some (node_stop n).
Proof.
  intros Hint Hdata Hne Hnow. rewrite reduced_onmessage_playback, Hint, Hdata. simpl.
  apply String.eqb_neq in Hne. rewrite Hne. simpl.
  assert (Hlen : length (stop_all (scheduledSources (playback st)) (nodes (playback st)))
                 = length (nodes (playback st))).
  { unfold stop_all. by rewrite length_imap. }
  rewrite Hlen, Z.max_r by done.
  exists (length (nodes (playback st))). split; [done |]. split; [done |].
  split; [by rewrite union_empty_r_L |]. split.
  { rewrite lookup_app_r by by rewrite Hlen. by rewrite Hlen, Nat.sub_diag. }
  split; [done |]. intros i n Hi Hn.
  rewrite lookup_app_l by (rewrite Hlen; by eapply lookup_lt_Some).
  rewrite stop_all_lookup, Hn. simpl. by rewrite decide_True.
Qed.

(** Both [stopAudio] functions can be called twice in a row (an error
    followed by the close of the same session does so): the second call
    changes nothing.  After one call every source that was scheduled is
    stopped, nothing is scheduled, the clock is at 0, the stream and
    the output context are gone and the level meter reads 0. *)
Theorem stopAudio_idempotent (st : App) :
  Richer.stopAudio (Richer.stopAudio st) = Richer.stopAudio st ∧
  Reduced.stopAudio (Reduced.stopAudio st) = Reduced.stopAudio st ∧
  (∀ i n, i ∈ scheduledSources (playback st) →
          nodes (playback st) !! i = Some n →
          nodes (playback (Richer.stopAudio st)) !! i = Some (node_stop n) ∧
          nodes (playback (Reduced.stopAudio st)) !! i = Some (node_stop n)) ∧
  playback (Richer.stopAudio st) = playback (Reduced.stopAudio st) ∧
  scheduledSources (playback (Richer.stopAudio st)) = ∅ ∧
  nextStartTime (playback (Richer.stopAudio st)) = 0 ∧
  outputAudioContext (playback (Richer.stopAudio st)) = false ∧
  mediaStream (capture (Richer.stopAudio st)) = None ∧
  mediaStream (capture (Reduced.stopAudio st)) = None ∧
  audioLevel (capture (Richer.stopAudio st)) = 0%Qc ∧
  audioLevel (capture (Reduced.stopAudio st)) = 0%Qc.
Proof.
  split; [|split; [|split]].
  - unfold Richer.stopAudio. simpl. by rewrite stop_all_empty.
  - unfold Reduced.stopAudio. simpl. by rewrite stop_all_empty.
  - intros i n Hi Hn. simpl. rewrite stop_all_lookup, Hn. simpl. by rewrite decide_True.
  - done.
Qed.

(** One turn of the richer application keeps the playback queue well
    formed. *)
Lemma step_playback_ok (e : Richer.Event) (st st' : App) :
  playback_ok (playback st) → Richer.step e st = Some st' → playback_ok (playback st').
Proof.
  intros Hok Hstep. unfold Richer.step in Hstep.
  apply fmap_Some in Hstep as (st1 & Hst1 & ->). simpl.
  destruct e as [apiKey throws| | |sid|sid message currentTime|sid|sid|tracks| |inputData|source];
    simpl in Hst1; repeat case_match; simplify_eq; simpl; try done;
    try apply playback_ok_flush.
  - unfold Richer.connectToGemini. repeat case_match; simpl; try done; apply playback_ok_flush.
  - unfold Richer.endCall. repeat case_match; simpl; try done; apply playback_ok_flush.
  - unfold Richer.toggleMute. by repeat case_match.
  - rewrite richer_onmessage_playback. repeat case_match; try done.
    by apply playback_ok_enqueue.
  - by apply playback_ok_context.
  - unfold Richer.onaudioprocess. by repeat case_match.
  - by apply playback_ok_delete.
Qed.

Lemma run_invariant (P : App → Prop) :
  (∀ e st st', P st → Richer.step e st = Some st' → P st') →
  ∀ (es : list Richer.Event) (st : App) (tr : list App),
    Richer.run es st = Some tr → P st → ∀ st', st' ∈ tr → P st'.
Proof.
  intros Hstep es.
  induction es as [|e es IH]; intros st tr Hrun HP st' Hin; simpl in Hrun.
  - injection Hrun as <-. by apply list_elem_of_singleton in Hin as ->.
  - destruct (Richer.step e st) as [st1|] eqn:Hst; [|done].
    apply fmap_Some in Hrun as (tr' & Hrun' & ->).
    apply elem_of_cons in Hin as [->|Hin]; [done |].
    apply (IH st1 tr' Hrun'); [by eapply Hstep | done].
Qed.

(** In every state of every run of the richer application from the
    mounted component: each scheduled source is a node that was started
    and has not been stopped, and ends no later than the playback clock;
    while there is no output context nothing is scheduled and the clock
    is at 0; the clock is never negative. *)
Theorem run_playback_ok
    (u : option User) (ls : MockDatabase.Storage) (es : list Richer.Event) (tr : list App) :
  Richer.run es (Richer.init u ls) = Some tr →
  ∀ st, st ∈ tr → playback_ok (playback st).
Proof.
  intros Hrun. apply (run_invariant (λ st, playback_ok (playback st)) step_playback_ok es _ _ Hrun).
  apply playback_ok_flush.
Qed.

(** The handlers of the reduced variant keep the playback queue well
    formed too, interruptions included. *)
Theorem reduced_handlers_keep_playback_ok
    (message : LiveServerMessage) (currentTime : Z) (source : nat) (st : App) :
  playback_ok (playback st) →
  playback_ok (playback (Reduced.onmessage message currentTime st)) ∧
  playback_ok (playback (Reduced.onended source st)) ∧
  playback_ok (playback (Reduced.stopAudio st)).
Proof.
  intros Hok. split; [|split].
  - rewrite reduced_onmessage_playback.
    assert (Hp : playback_ok
                   (if interrupted message
                    then mkPlayback (outputAudioContext (playback st)) 0
                           (stop_all (scheduledSources (playback st)) (nodes (playback st))) ∅
                    else playback st)).
    { destruct (interrupted message); [apply playback_ok_flush | done]. }
    simpl. repeat case_match; try done; by apply playback_ok_enqueue.
  - by apply playback_ok_delete.
  - apply playback_ok_flush.
Qed.

End playback_queue.

Lemma richer_audio_dropped_without_output_context_witness :
  outputAudioContext (playback demo_state) = false ∧
  playback (@Richer.onmessage iso_host "ada@example.org" (audio_message "abcd") 0 demo_state)
    = playback demo_state ∧
  @Richer.onmessage iso_host "ada@example.org" (audio_message "abcd") 0 demo_state =
    @Richer.onmessage iso_host "ada@example.org"
       (mkMessage None (interrupted (audio_message "abcd")) (toolCall (audio_message "abcd")))
       0 demo_state ∧
  (toolCall (audio_message "abcd") = None →
   @Richer.onmessage iso_host "ada@example.org" (audio_message "abcd") 0 demo_state
     = demo_state).
Proof.
  split; [reflexivity |].
  apply (@richer_audio_dropped_without_output_context iso_host "ada@example.org"
           (audio_message "abcd") 0 demo_state).
  reflexivity.
Defined.

Lemma reduced_interrupt_then_audio_witness :
  interrupted demo_barge_in = true ∧
  inlineData demo_barge_in = Some "ab" ∧
  "ab" ≠ "" ∧
  0 ≤ 1 ∧
  ∃ source,
    source = length (nodes (playback (@reduced_enqueue_all iso_host [("abcd", 0)] demo_state))) ∧
    outputAudioContext
      (playback (@Reduced.onmessage iso_host demo_barge_in 1
                   (@reduced_enqueue_all iso_host [("abcd", 0)] demo_state))) = true ∧
    scheduledSources
      (playback (@Reduced.onmessage iso_host demo_barge_in 1
                   (@reduced_enqueue_all iso_host [("abcd", 0)] demo_state))) = {[ source ]} ∧
    nodes (playback (@Reduced.onmessage iso_host demo_barge_in 1
                       (@reduced_enqueue_all iso_host [("abcd", 0)] demo_state))) !! source =
      Some (mkNode (@decodeAudioData iso_host "ab") 1 false) ∧
    nextStartTime
      (playback (@Reduced.onmessage iso_host demo_barge_in 1
                   (@reduced_enqueue_all iso_host [("abcd", 0)] demo_state))) =
      1 + duration (@decodeAudioData iso_host "ab") ∧
    ∀ i n,
      i ∈ scheduledSources (playback (@reduced_enqueue_all iso_host [("abcd", 0)] demo_state)) →
      nodes (playback (@reduced_enqueue_all iso_host [("abcd", 0)] demo_state)) !! i = Some n →
      nodes (playback (@Reduced.onmessage iso_host demo_barge_in 1
                         (@reduced_enqueue_all iso_host [("abcd", 0)] demo_state))) !! i
        = Some (node_stop n).
Proof.
  split; [reflexivity |]. split; [reflexivity |]. split; [discriminate |]. split; [lia |].
  apply (@reduced_interrupt_then_audio iso_host demo_barge_in "ab" 1
           (@reduced_enqueue_all iso_host [("abcd", 0)] demo_state));
    [reflexivity | reflexivity | discriminate | lia].
Defined.

Lemma run_playback_ok_witness :
  ∃ tr,
    @Richer.run iso_host demo_call (Richer.init (Some demo_user) None) = Some tr ∧
    ∀ st, st ∈ tr → playback_ok (playback st).
Proof.
  destruct (@Richer.run iso_host demo_call (Richer.init (Some demo_user) None))
    as [tr|] eqn:Hrun; [|discriminate Hrun].
  exists tr. split; [reflexivity |].
  exact (@run_playback_ok iso_host (Some demo_user) None demo_call tr Hrun).
Defined.

Lemma reduced_handlers_keep_playback_ok_witness :
  playback_ok (playback demo_ready) ∧
  playback_ok (playback (@Reduced.onmessage iso_host demo_barge_in 1 demo_ready)) ∧
  playback_ok (playback (Reduced.onended 0 demo_ready)) ∧
  playback_ok (playback (Reduced.stopAudio demo_ready)).
Proof.
  split; [apply playback_ok_flush |].
  apply (@reduced_handlers_keep_playback_ok iso_host demo_barge_in 1 0%nat demo_ready).
  apply playback_ok_flush.
Defined.

(** The run [demo_call], state by state: connection state, scheduled
    sources, playback clock and the status of the stored bookings. *)
Example demo_call_states :
  map (λ st, (state_of st, elements (scheduledSources (playback st)),
              nextStartTime (playback st),
              (λ b : JsObj, b !! "status") <$> MockDatabase.load (localStorage (booking st)))) <$>
    @Richer.run iso_host demo_call (Richer.init (Some demo_user) None)
  = Some [ (DISCONNECTED, [], 0, []); (CONNECTING, [], 0, []);
           (CONNECTED, [], 0, []); (CONNECTED, [], 0, []);
           (CONNECTED, [], 0, []); (CONNECTED, [0%nat], 4, []);
           (CONNECTED, [1%nat; 0%nat], 6, [Some (JStr "confirmed")]);
           (CONNECTED, [1%nat], 6, [Some (JStr "confirmed")]);
           (CONNECTED, [1%nat], 6, [Some (JStr "cancelled")]);
           (DISCONNECTED, [], 0, [Some (JStr "cancelled")]) ].
Proof. reflexivity. Qed.

(** ** The booking store over a whole run *)

Lemma store_extends_refl (l : list JsObj) : store_extends l l.
Proof. by exists []. Qed.

Lemma store_extends_trans (l1 l2 l3 : list JsObj) :
  store_extends l1 l2 → store_extends l2 l3 → store_extends l1 l3.
Proof.
  intros [new1 H1] [new2 H2]. exists (new2 ++ new1). by rewrite H2, H1, app_assoc.
Qed.

Lemma mark_cancelled_delete (code : option JsVal) (b : JsObj) :
  delete "status" (mark_cancelled code b) = delete "status" b.
Proof. unfold mark_cancelled. destruct (decide _); [|done]. by rewrite delete_insert_eq. Qed.

Lemma mark_cancelled_other (code : option JsVal) (b : JsObj) (key : string) :
  key ≠ "status" → mark_cancelled code b !! key = b !! key.
Proof. intros Hne. unfold mark_cancelled. destruct (decide _); [|done]. by rewrite lookup_insert_ne. Qed.

Lemma mark_cancelled_status (code : option JsVal) (b : JsObj) :
  mark_cancelled code b !! "status" =
    if decide (b !! "confirmation_code" = code) then Some (JStr "cancelled") else b !! "status".
Proof. unfold mark_cancelled. destruct (decide _); [|done]. by rewrite lookup_insert_eq. Qed.

Lemma stored_ok_mark (email : string) (code : option JsVal) (b : JsObj) :
  stored_ok email b → stored_ok email (mark_cancelled code b).
Proof.
  intros (He & Hs & Hc & Hi & Ht). unfold stored_ok.
  rewrite mark_cancelled_status, !mark_cancelled_other by done.
  split; [done |]. split; [|done]. destruct (decide _); [by right | done].
Qed.

Lemma store_extends_cancel (code : option JsVal) (l : list JsObj) :
  store_extends l (map (mark_cancelled code) l).
Proof.
  exists []. simpl. rewrite <- list_fmap_compose. apply list_fmap_ext.
  intros i b _. simpl. apply mark_cancelled_delete.
Qed.

Section store_run.
Context `{Host}.

Lemma richer_handle_call_store (email : string) (call : FunctionCall) (st : App) :
  user (Richer.handle_call email call st).2 = user st ∧
  store_extends (MockDatabase.load (localStorage (booking st)))
    (MockDatabase.load (localStorage (booking (Richer.handle_call email call st).2))) ∧
  (Forall (stored_ok email) (MockDatabase.load (localStorage (booking st))) →
   Forall (stored_ok email)
     (MockDatabase.load (localStorage (booking (Richer.handle_call email call st).2)))).
Proof.
  destruct (String.eqb_spec (call_name call) "finalize_booking") as [Hfin | Hfin].
  { rewrite richer_finalize_eq by done. simpl. split; [done |]. split.
    - by eexists [_].
    - intros Hall. constructor; [|done].
      destruct (savedBooking_fields email (call_args call) st) as (Hi & Ht & Hs & He & Hc & _).
      unfold stored_ok. split; [done |]. split; [by left |]. by repeat split; eexists. }
  destruct (String.eqb_spec (call_name call) "cancel_booking") as [Hcan | Hcan].
  { rewrite richer_cancel_eq by done. simpl. rewrite cancelBooking_spec. simpl.
    split; [done |]. split; [apply store_extends_cancel |].
    intros Hall. apply Forall_fmap. eapply Forall_impl; [exact Hall |].
    intros b Hb. by apply stored_ok_mark. }
  unfold Richer.handle_call.
  apply String.eqb_neq in Hfin, Hcan. rewrite Hfin, Hcan.
  repeat case_match; simpl; (split; [done |]); (split; [apply store_extends_refl | done]).
Qed.

Lemma store_grows_refl (l : list JsObj) : store_grows l l.
Proof. split; [apply store_extends_refl | done]. Qed.

Lemma store_grows_trans (l1 l2 l3 : list JsObj) :
  store_grows l1 l2 → store_grows l2 l3 → store_grows l1 l3.
Proof.
  intros [He1 Hw1] [He2 Hw2]. split; [by eapply store_extends_trans | auto].
Qed.

Lemma store_grows_cancel (code : option JsVal) (l : list JsObj) :
  store_grows l (map (mark_cancelled code) l).
Proof.
  split; [apply store_extends_cancel |].
  intros Hall. apply Forall_fmap. eapply Forall_impl; [exact Hall |].
  intros b [email Hb]. exists email. by apply stored_ok_mark.
Qed.

Lemma richer_handle_call_grows (email : string) (call : FunctionCall) (st : App) :
  store_grows (MockDatabase.load (localStorage (booking st)))
    (MockDatabase.load (localStorage (booking (Richer.handle_call email call st).2))).
Proof.
  destruct (String.eqb_spec (call_name call) "finalize_booking") as [Hfin | Hfin].
  { rewrite richer_finalize_eq by done. simpl. split; [by eexists [_] |].
    intros Hall. constructor; [|done]. exists email.
    destruct (savedBooking_fields email (call_args call) st) as (Hi & Ht & Hs & He & Hc & _).
    unfold stored_ok. split; [done |]. split; [by left |]. by repeat split; eexists. }
  destruct (String.eqb_spec (call_name call) "cancel_booking") as [Hcan | Hcan].
  { rewrite richer_cancel_eq by done. simpl. rewrite cancelBooking_spec. simpl.
    apply store_grows_cancel. }
  unfold Richer.handle_call.
  apply String.eqb_neq in Hfin, Hcan. rewrite Hfin, Hcan.
  repeat case_match; simpl; apply store_grows_refl.
Qed.

Lemma richer_handle_wire_calls_grows (email : string) (calls : list WireCall) :
  ∀ (responses : list FunctionResponse) (st : App),
    store_grows (MockDatabase.load (localStorage (booking st)))
      (MockDatabase.load
         (localStorage (booking (Richer.handle_wire_calls email calls responses st).2))).
Proof.
  induction calls as [|call rest IH]; intros responses st; simpl; [apply store_grows_refl |].
  unfold Richer.handle_wire_call.
  destruct (wire_args call) as [args|].
  - pose proof (richer_handle_call_grows email
                  (mkCall (wire_id call) (wire_name call) args) st) as Hcall.
    destruct (Richer.handle_call email _ st) as [result st1].
    eapply store_grows_trans; [exact Hcall | apply IH].
  - destruct (Richer.reads_args (wire_name call)); [apply store_grows_refl |].
    pose proof (richer_handle_call_grows email
                  (mkCall (wire_id call) (wire_name call) ∅) st) as Hcall.
    destruct (Richer.handle_call email _ st) as [result st1].
    eapply store_grows_trans; [exact Hcall | apply IH].
Qed.

(** The handler of a session, returning or throwing, for whatever user
    the session was opened. *)
Lemma richer_onmessage_wire_grows (email : string) (message : WireMessage)
    (currentTime : Z) (st : App) :
  store_grows (MockDatabase.load (localStorage (booking st)))
    (MockDatabase.load
       (localStorage
          (booking (outcome_state (Richer.onmessage_wire email message currentTime st))))).
Proof.
  unfold Richer.onmessage_wire.
  set (st1 := Richer.onmessage email
                (mkMessage (wire_inlineData message) (wire_interrupted message) None)
                currentTime st).
  assert (Hst1 : booking st1 = booking st).
  { subst st1. unfold Richer.onmessage. simpl. by repeat case_match. }
  assert (Hcalls : ∀ calls,
            store_grows (MockDatabase.load (localStorage (booking st)))
              (MockDatabase.load
                 (localStorage (booking (Richer.handle_wire_calls email calls [] st1).2)))).
  { intros calls. rewrite <- Hst1. apply richer_handle_wire_calls_grows. }
  assert (Hsame : store_grows (MockDatabase.load (localStorage (booking st)))
                    (MockDatabase.load (localStorage (booking st1)))).
  { rewrite Hst1. apply store_grows_refl. }
  destruct (wire_modelTurn message); simpl; try apply store_grows_refl;
    destruct (wire_toolCall message) as [| |calls]; simpl; try exact Hsame;
    specialize (Hcalls calls);
    by destruct (Richer.handle_wire_calls email calls [] st1) as [[rs|] st2].
Qed.

(** The turns of the call machine other than a message do not touch
    the store. *)
Lemma step_store_same (e : Richer.Event) (st st' : App) :
  (∀ sid message currentTime, e ≠ Richer.RemoteMessage sid message currentTime) →
  Richer.step e st = Some st' →
  localStorage (booking st') = localStorage (booking st).
Proof.
  unfold Richer.step. intros Hne Hstep.
  apply fmap_Some in Hstep as (st1 & Hst1 & ->). simpl.
  destruct e as [apiKey throws| | |sid|sid message currentTime|sid|sid|tracks| |inputData|source];
    simpl in Hst1; repeat case_match; simplify_eq; try done.
  - unfold Richer.connectToGemini; by repeat case_match.
  - unfold Richer.endCall; by repeat case_match.
  - unfold Richer.toggleMute; by repeat case_match.
  - by destruct (Hne sid message currentTime).
  - unfold Richer.onaudioprocess; by repeat case_match.
Qed.

Lemma app_step_grows (e : AppEvent) (st st' : App) :
  app_step e st = Some st' →
  store_grows (MockDatabase.load (localStorage (booking st)))
              (MockDatabase.load (localStorage (booking st'))).
Proof.
  destruct e as [e|sid email message currentTime|u| |code]; simpl; intros Hstep.
  - assert (Hst : Richer.step e st = Some st' ∧
                  ∀ sid message currentTime, e ≠ Richer.RemoteMessage sid message currentTime)
      by (by destruct e).
    destruct Hst as [Hst Hne]. rewrite (step_store_same e st st' Hne Hst).
    apply store_grows_refl.
  - destruct (sessions (conn st) !! sid) as [[]|]; try done. injection Hstep as <-.
    simpl. apply richer_onmessage_wire_grows.
  - injection Hstep as <-. apply store_grows_refl.
  - injection Hstep as <-. apply store_grows_refl.
  - injection Hstep as <-. unfold drawer_onCancel. simpl. rewrite cancelBooking_spec. simpl.
    apply store_grows_cancel.
Qed.

Lemma app_run_grows (es : list AppEvent) :
  ∀ (st : App) (tr : list App),
    app_run es st = Some tr →
    ∀ st', st' ∈ tr →
      store_grows (MockDatabase.load (localStorage (booking st)))
                  (MockDatabase.load (localStorage (booking st'))).
Proof.
  induction es as [|e es IH]; intros st tr Hrun st' Hin; simpl in Hrun.
  - injection Hrun as <-. apply list_elem_of_singleton in Hin as ->. apply store_grows_refl.
  - destruct (app_step e st) as [st1|] eqn:Hst; [|done].
    apply fmap_Some in Hrun as (tr' & Hrun' & ->).
    apply elem_of_cons in Hin as [->|Hin]; [apply store_grows_refl |].
    eapply store_grows_trans; [by eapply app_step_grows | by eapply IH].
Qed.

(** Whatever happens in the richer component, in any order: turns of
    the call, messages handled (to the end or up to a throw) by a
    session opened for any user, logins, logouts and cancellations from
    the drawer.  No stored booking is removed or reordered, no field of
    a stored booking other than its status is changed, and new bookings
    are put in front. *)
Theorem app_store_append_only (es : list AppEvent) (st : App) (tr : list App) :
  app_run es st = Some tr →
  ∀ st', st' ∈ tr →
    store_extends (MockDatabase.load (localStorage (booking st)))
                  (MockDatabase.load (localStorage (booking st'))).
Proof. intros Hrun st' Hin. by apply (app_run_grows es st tr Hrun st' Hin). Qed.

(** Starting from a store that holds only well-formed bookings (the
    empty store of a first visit, for one), every state of every run of
    the component has such a store, whoever logs in or out meanwhile:
    each stored booking carries an e-mail, a confirmation code, an id,
    a creation time and the status [confirmed] or [cancelled].  The
    e-mail need not be that of the user logged in now. *)
Theorem app_store_wellformed (es : list AppEvent) (st : App) (tr : list App) :
  Forall stored_wf (MockDatabase.load (localStorage (booking st))) →
  app_run es st = Some tr →
  ∀ st', st' ∈ tr →
    Forall stored_wf (MockDatabase.load (localStorage (booking st'))).
Proof. intros Hwf Hrun st' Hin. by apply (app_run_grows es st tr Hrun st' Hin). Qed.

End store_run.

Lemma app_store_append_only_witness :
  ∃ tr,
    @app_run iso_host demo_two_users (Richer.init None None) = Some tr ∧
    ∀ st', st' ∈ tr →
      store_extends
        (MockDatabase.load (localStorage (booking (Richer.init None None))))
        (MockDatabase.load (localStorage (booking st'))).
Proof.
  destruct (@app_run iso_host demo_two_users (Richer.init None None))
    as [tr|] eqn:Hrun; [|discriminate Hrun].
  exists tr. split; [reflexivity |].
  exact (@app_store_append_only iso_host demo_two_users (Richer.init None None) tr Hrun).
Defined.

Lemma app_store_wellformed_witness :
  Forall stored_wf (MockDatabase.load (localStorage (booking (Richer.init None None)))) ∧
  ∃ tr,
    @app_run iso_host demo_two_users (Richer.init None None) = Some tr ∧
    ∀ st', st' ∈ tr →
      Forall stored_wf (MockDatabase.load (localStorage (booking st'))).
Proof.
  split; [constructor |].
  destruct (@app_run iso_host demo_two_users (Richer.init None None))
    as [tr|] eqn:Hrun; [|discriminate Hrun].
  exists tr. split; [reflexivity |].
  exact (@app_store_wellformed iso_host demo_two_users (Richer.init None None) tr
           (Forall_nil_2 _) Hrun).
Defined.

(** The run [demo_two_users], state by state: who is logged in, and
    the e-mail, code and status of each stored booking.  The booking
    that Ada's session stores after Bob has logged in is Ada's; the
    call without arguments throws after it; Bob's click in the drawer
    cancels a booking of Ada's. *)
Example demo_two_users_store :
  map (λ st, (user_name <$> user st,
              (λ b : JsObj, (b !! "email", b !! "confirmation_code", b !! "status")) <$>
                MockDatabase.load (localStorage (booking st)))) <$>
    @app_run iso_host demo_two_users (Richer.init None None)
  = Some [ (None, []); (Some "Ada", []); (Some "Ada", []); (Some "Ada", []);
           (Some "Ada", [(Some (JStr "ada@example.org"), Some (JStr "OMNI-0042"),
                          Some (JStr "confirmed"))]);
           (None, [(Some (JStr "ada@example.org"), Some (JStr "OMNI-0042"),
                    Some (JStr "confirmed"))]);
           (Some "Bob", [(Some (JStr "ada@example.org"), Some (JStr "OMNI-0042"),
                          Some (JStr "confirmed"))]);
           (Some "Bob", [(Some (JStr "ada@example.org"), Some (JStr "OMNI-0043"),
                          Some (JStr "confirmed"));
                         (Some (JStr "ada@example.org"), Some (JStr "OMNI-0042"),
                          Some (JStr "confirmed"))]);
           (Some "Bob", [(Some (JStr "ada@example.org"), Some (JStr "OMNI-0043"),
                          Some (JStr "confirmed"));
                         (Some (JStr "ada@example.org"), Some (JStr "OMNI-0042"),
                          Some (JStr "cancelled"))]) ].
Proof. reflexivity. Qed.

(** ** The bookings drawer *)

Lemma getBookings_cancelled (code : option JsVal) (email : string) (ls : MockDatabase.Storage) :
  MockDatabase.getBookings email (MockDatabase.cancelBooking code ls).2 =
    map (mark_cancelled code) (MockDatabase.getBookings email ls).
Proof.
  rewrite cancelBooking_spec. unfold MockDatabase.getBookings. simpl.
  induction (MockDatabase.load ls) as [|b l IH]; simpl; [done |].
  rewrite !filter_cons, mark_cancelled_other by done.
  destruct (decide (b !! "email" = Some (JStr email))); simpl; by rewrite IH.
Qed.

Lemma drawer_tabs_list (l : list JsObj) :
  Forall (λ b : JsObj, b !! "status" = Some (JStr "confirmed") ∨
                       b !! "status" = Some (JStr "cancelled")) l →
  drawer_upcoming l ++ drawer_history l ≡ₚ l ∧
  length (filter (λ b : JsObj, b !! "status" = Some (JStr "confirmed")) l)
    = length (drawer_upcoming l).
Proof.
  unfold drawer_upcoming, drawer_history.
  induction 1 as [|b l Hb _ [IHp IHl]]; [done |].
  rewrite !filter_cons. destruct Hb as [Hb | Hb]; rewrite Hb.
  - rewrite decide_True by by left. rewrite decide_False by done.
    rewrite decide_True by done. simpl. by rewrite IHp, IHl.
  - rewrite decide_False by (by intros [?|?]). rewrite decide_True by done.
    rewrite decide_False by done. split; [|done].
    rewrite <- Permutation_middle. by rewrite IHp.
Qed.

Lemma confirmed_count_cancel (code : option JsVal) (l : list JsObj) :
  (length (filter (λ b : JsObj, b !! "status" = Some (JStr "confirmed"))
                  (map (mark_cancelled code) l))
   ≤ length (filter (λ b : JsObj, b !! "status" = Some (JStr "confirmed")) l))%nat.
Proof.
  induction l as [|b l IH]; simpl; [done |].
  rewrite !filter_cons, mark_cancelled_status.
  repeat destruct (decide _); simpl in *; try lia; done.
Qed.

Lemma userBookings_ok (st : App) :
  store_ok st → Forall (stored_ok (Richer.email_of st)) (userBookings st).
Proof.
  unfold store_ok, userBookings, MockDatabase.getBookings. intros Hok.
  destruct (user st) as [u|]; [|constructor].
  rewrite Forall_forall in Hok. apply Forall_forall. intros b Hb.
  apply list_elem_of_filter in Hb as [_ Hb]. by apply Hok.
Qed.

(** With a store that holds only well-formed bookings of the logged-in
    user, the two tabs of
    the drawer split the user's bookings: each booking is shown in
    exactly one tab, and the badge in the header counts the bookings of
    the Upcoming tab. *)
Theorem drawer_tabs_partition (st : App) :
  store_ok st →
  drawer_upcoming (userBookings st) ++ drawer_history (userBookings st) ≡ₚ userBookings st ∧
  (∀ b, b ∈ drawer_upcoming (userBookings st) → b ∉ drawer_history (userBookings st)) ∧
  activeBookingsCount st = length (drawer_upcoming (userBookings st)).
Proof.
  intros Hok. apply userBookings_ok in Hok.
  destruct (drawer_tabs_list (userBookings st)) as [Hperm Hlen].
  { eapply Forall_impl; [exact Hok |]. by intros b (_ & Hs & _). }
  split; [done |]. split; [|done].
  intros b Hup Hhist. unfold drawer_upcoming, drawer_history in *.
  apply list_elem_of_filter in Hup as [Hup _]. apply list_elem_of_filter in Hhist as [Hhist _].
  rewrite Hhist in Hup. by destruct Hup.
Qed.

(** Cancelling from the drawer: every booking of the user with the
    code is afterwards in the History tab and not in the Upcoming tab,
    the user's list keeps its length and order, the badge count does
    not go up, and a well-formed store stays well formed. *)
Theorem drawer_onCancel_moves_to_history (code : string) (st : App) :
  userBookings (drawer_onCancel code st) =
    map (mark_cancelled (Some (JStr code))) (userBookings st) ∧
  (∀ b, b ∈ userBookings (drawer_onCancel code st) →
        b !! "confirmation_code" = Some (JStr code) →
        b ∈ drawer_history (userBookings (drawer_onCancel code st)) ∧
        b ∉ drawer_upcoming (userBookings (drawer_onCancel code st))) ∧
  (activeBookingsCount (drawer_onCancel code st) ≤ activeBookingsCount st)%nat ∧
  (store_ok st → store_ok (drawer_onCancel code st)).
Proof.
  assert (Heq : userBookings (drawer_onCancel code st) =
                map (mark_cancelled (Some (JStr code))) (userBookings st)).
  { unfold userBookings, drawer_onCancel. simpl. destruct (user st) as [u|]; [|done].
    apply getBookings_cancelled. }
  split; [exact Heq |]. split; [|split].
  - intros b Hb Hcode.
    assert (Hst : b !! "status" = Some (JStr "cancelled")).
    { rewrite Heq in Hb. apply list_elem_of_fmap in Hb as (b0 & -> & _).
      rewrite mark_cancelled_code in Hcode. rewrite mark_cancelled_status.
      by rewrite decide_True. }
    unfold drawer_history, drawer_upcoming. split.
    + by apply list_elem_of_filter.
    + intros Hup. apply list_elem_of_filter in Hup as [Hup _]. rewrite Hst in Hup.
      by destruct Hup.
  - unfold activeBookingsCount. rewrite Heq. apply confirmed_count_cancel.
  - unfold store_ok, drawer_onCancel. simpl. rewrite cancelBooking_spec. simpl.
    intros Hok. apply Forall_fmap. eapply Forall_impl; [exact Hok |].
    intros b Hb. by apply stored_ok_mark.
Qed.

Lemma drawer_tabs_partition_witness :
  store_ok demo_booked ∧
  drawer_upcoming (userBookings demo_booked) ++ drawer_history (userBookings demo_booked)
    ≡ₚ userBookings demo_booked ∧
  (∀ b, b ∈ drawer_upcoming (userBookings demo_booked) →
        b ∉ drawer_history (userBookings demo_booked)) ∧
  activeBookingsCount demo_booked = length (drawer_upcoming (userBookings demo_booked)).
Proof.
  assert (Hok : store_ok demo_booked).
  { apply (@richer_handle_call_store iso_host "ada@example.org" demo_finalize demo_state).
    constructor. }
  split; [exact Hok |]. exact (drawer_tabs_partition demo_booked Hok).
Defined.

Example demo_booked_drawer :
  (length (userBookings demo_booked), activeBookingsCount demo_booked,
   length (drawer_upcoming (userBookings demo_booked)),
   length (drawer_history (userBookings (drawer_onCancel "OMNI-0042" demo_booked))),
   activeBookingsCount (drawer_onCancel "OMNI-0042" demo_booked))
  = (1%nat, 1%nat, 1%nat, 1%nat, 0%nat).
Proof. reflexivity. Qed.

(** ** The level meter of the richer variant *)

Section meter.
Context `{Host}.

(** The smoothed meter stays within 0 and 10 as long as the RMS of each
    frame is within 0 and 1 (samples are in [-1, 1]): the gain 2 on the
    frame and the decay 0.8 balance at 10. *)
Theorem richer_meter_bounded (inputData : list Qc) (st : App) :
  (0 <= rms_of inputData)%Qc → (rms_of inputData <= 1)%Qc →
  (0 <= audioLevel (capture st))%Qc → (audioLevel (capture st) <= Q2Qc 10)%Qc →
  (0 <= audioLevel (capture (Richer.onaudioprocess inputData st)))%Qc ∧
  (audioLevel (capture (Richer.onaudioprocess inputData st)) <= Q2Qc 10)%Qc.
Proof.
  intros Hr0 Hr1 Hl0 Hl1.
  assert (Hlevel : audioLevel (capture (Richer.onaudioprocess inputData st)) =
            (audioLevel (capture st) * Q2Qc 0.8 +
             (if match mediaStream (capture st) with
                 | Some tracks => existsb (λ t, t) tracks
                 | None => false
                 end then rms_of inputData else 0) * Q2Qc 2.0)%Qc).
  { unfold Richer.onaudioprocess. by destruct (inputClosed (capture st)). }
  rewrite Hlevel.
  set (r := if match mediaStream (capture st) with
               | Some tracks => existsb (λ t, t) tracks
               | None => false
               end then rms_of inputData else 0%Qc).
  assert (Hr : (0 <= r)%Qc ∧ (r <= 1)%Qc).
  { subst r. destruct (match mediaStream (capture st) with Some _ => _ | None => _ end);
      [done | by split]. }
  destruct Hr as [Hr0' Hr1'].
  assert (H08 : (0 <= Q2Qc 0.8)%Qc) by done.
  assert (H20 : (0 <= Q2Qc 2.0)%Qc) by done.
  pose proof (Qcmult_le_compat_r _ _ _ Hl0 H08) as Ha0.
  pose proof (Qcmult_le_compat_r _ _ _ Hl1 H08) as Ha1.
  pose proof (Qcmult_le_compat_r _ _ _ Hr0' H20) as Hb0.
  pose proof (Qcmult_le_compat_r _ _ _ Hr1' H20) as Hb1.
  split.
  - apply Qcle_trans with (0 * Q2Qc 0.8 + 0 * Q2Qc 2.0)%Qc; [done |].
    by apply Qcplus_le_compat.
  - apply Qcle_trans with (Q2Qc 10 * Q2Qc 0.8 + 1 * Q2Qc 2.0)%Qc; [|done].
    by apply Qcplus_le_compat.
Qed.

End meter.

Lemma richer_meter_bounded_witness :
  (0 <= @rms_of iso_host demo_frame)%Qc ∧ (@rms_of iso_host demo_frame <= 1)%Qc ∧
  (0 <= audioLevel (capture demo_live))%Qc ∧ (audioLevel (capture demo_live) <= Q2Qc 10)%Qc ∧
  (0 <= audioLevel (capture (@Richer.onaudioprocess iso_host demo_frame demo_live)))%Qc ∧
  (audioLevel (capture (@Richer.onaudioprocess iso_host demo_frame demo_live)) <= Q2Qc 10)%Qc.
Proof.
  split; [done |]. split; [done |]. split; [done |]. split; [done |].
  apply (@richer_meter_bounded iso_host demo_frame demo_live); done.
Defined.

(** ** [finalize_booking] in the reduced variant *)

Section reduced_finalize.
Context `{Host}.


End reduced_finalize.

